(** * The NaCl ssh plugin bridge ([ssh_plugin.cc]): a shallow embedding

    The plugin instance ([SshPluginInstance]) relays POSIX-like file and
    socket operations of the native ssh client to its JavaScript host as
    JSON envelopes [{name, arguments}], and dispatches the host's answers
    to per-descriptor stream handles.  This development embeds the methods
    of [ssh_plugin.cc] as state-passing functions over a record of the
    instance's fields and proves the properties its specification lists. *)

From Stdlib Require Import ZArith Lia ZifyNat Ascii String.
From Stdlib.Strings Require Import Byte.
From stdpp Require Import base list strings gmap pretty.
From Equations Require Import Equations.

Set Warnings "-register-all".

(** ** The base64 codec: [b64_ntop] and [b64_pton] *)

Module Codec.

(** [unsigned char] values are kept as [Z] in [0, 256); a store into a
    [u_char] or [char] cell truncates. *)
Definition uchar (b : byte) : Z := Z.of_N (Byte.to_N b).

Definition to_uchar (z : Z) : byte :=
  default x00 (Byte.of_N (Z.to_N (z mod 256))).

(** Modelled from the spec: the alphabet of the codec.  [b64_ntop] and
    [b64_pton] are declared by [<resolv.h>] and their bodies are not under
    src/; the spec names the text form base64 (section 6,
    [data:base64-string]), so the table is the base64 alphabet with [=] as
    the padding character. *)
Definition Base64 : string :=
  "ABCDEFGHIJKLMNOPQRSTUVWXYZabcdefghijklmnopqrstuvwxyz0123456789+/".

Definition Pad64 : ascii := "="%char.

(** [Base64[i]] *)
Definition Base64_at (i : Z) : ascii :=
  default "000"%char (String.get (Z.to_nat i) Base64).

(** [strchr(Base64, ch) - Base64] for a character other than NUL. *)
Fixpoint index_from (s : string) (ch : ascii) (i : Z) : option Z :=
  match s with
  | EmptyString => None
  | String c s' => if Ascii.eqb c ch then Some i else index_from s' ch (i + 1)
  end.

Definition strchr_Base64 (ch : ascii) : option Z := index_from Base64 ch 0.

(** Modelled from the spec: [isspace] of the C library, in the C locale
    (white space inside the text is not part of the data). *)
Definition isspace (ch : ascii) : bool :=
  let n := nat_of_ascii ch in
  (n =? 32)%nat || ((9 <=? n)%nat && (n <=? 13)%nat).

(** The four 6-bit digits of an input group of three bytes. *)
Definition output0 (i0 : Z) : Z := Z.shiftr i0 2.
Definition output1 (i0 i1 : Z) : Z := Z.shiftl (Z.land i0 3) 4 + Z.shiftr i1 4.
Definition output2 (i1 i2 : Z) : Z := Z.shiftl (Z.land i1 15) 2 + Z.shiftr i2 6.
Definition output3 (i2 : Z) : Z := Z.land i2 63.

Definition String4 (c0 c1 c2 c3 : ascii) (s : string) : string :=
  String c0 (String c1 (String c2 (String c3 s))).

(** Modelled from the spec: [b64_ntop(src, srclength, target, targsize)],
    the encoder of the codec (body not under src/).  It writes one group of
    four characters per three input bytes, pads a final group of one or two
    bytes with [=], refuses ([None], the C function's [-1]) as soon as the
    text and its terminating NUL do not fit in [targsize] characters, and
    otherwise yields the NUL-terminated text; the C return value is the
    length of that text. *)
Fixpoint b64_ntop_from (src : list byte) (datalength targsize : nat)
  : option string :=
  match src with
  | a :: b :: c :: rest =>
      if decide (targsize < datalength + 4)%nat then None
      else
        String4 (Base64_at (output0 (uchar a)))
                (Base64_at (output1 (uchar a) (uchar b)))
                (Base64_at (output2 (uchar b) (uchar c)))
                (Base64_at (output3 (uchar c)))
          <$> b64_ntop_from rest (datalength + 4) targsize
  | [a] =>
      if decide (targsize < datalength + 4)%nat then None
      else if decide (targsize ≤ datalength + 4)%nat then None
      else Some (String4 (Base64_at (output0 (uchar a)))
                         (Base64_at (output1 (uchar a) 0))
                         Pad64 Pad64 EmptyString)
  | [a; b] =>
      if decide (targsize < datalength + 4)%nat then None
      else if decide (targsize ≤ datalength + 4)%nat then None
      else Some (String4 (Base64_at (output0 (uchar a)))
                         (Base64_at (output1 (uchar a) (uchar b)))
                         (Base64_at (output2 (uchar b) 0))
                         Pad64 EmptyString)
  | [] => if decide (targsize ≤ datalength)%nat then None else Some EmptyString
  end.

Definition b64_ntop (src : list byte) (targsize : nat) : option string :=
  b64_ntop_from src 0 targsize.

(** Where the decoder's main loop stopped: at the terminating NUL, or at a
    padding character with the text after it still unread. *)
Inductive loop_exit :=
| AtNul
| AtPad (rest : string).

Record pton_state := {
  st_state : Z;
  st_tarindex : nat;
  st_target : list byte;
}.

#[global] Instance byte_inhabited : Inhabited byte := populate x00.

(** [target[i] |= v] *)
Definition or_at (target : list byte) (i : nat) (v : Z) : list byte :=
  <[i := to_uchar (Z.lor (uchar (target !!! i)) v)]> target.

(** Modelled from the spec: the main loop of [b64_pton(src, target,
    targsize)], the decoder of the codec (body not under src/).  White space
    is skipped, a character outside the alphabet is refused, and every digit
    is merged into the target bytes according to its position in the group
    ([state] 0 to 3), refusing when the target is too short. *)
Fixpoint b64_pton_loop (src : string) (state : Z) (tarindex : nat)
    (target : list byte) (targsize : nat) : option (loop_exit * pton_state) :=
  match src with
  | EmptyString => Some (AtNul, Build_pton_state state tarindex target)
  | String ch src' =>
      if isspace ch then b64_pton_loop src' state tarindex target targsize
      else if Ascii.eqb ch Pad64
      then Some (AtPad src', Build_pton_state state tarindex target)
      else
        match strchr_Base64 ch with
        | None => None
        | Some pos =>
            match state with
            | 0%Z =>
                if decide (targsize ≤ tarindex)%nat then None
                else b64_pton_loop src' 1 tarindex
                       (<[tarindex := to_uchar (Z.shiftl pos 2)]> target)
                       targsize
            | 1%Z =>
                if decide (targsize ≤ tarindex + 1)%nat then None
                else b64_pton_loop src' 2 (tarindex + 1)
                       (<[(tarindex + 1)%nat :=
                            to_uchar (Z.shiftl (Z.land pos 15) 4)]>
                          (or_at target tarindex (Z.shiftr pos 4)))
                       targsize
            | 2%Z =>
                if decide (targsize ≤ tarindex + 1)%nat then None
                else b64_pton_loop src' 3 (tarindex + 1)
                       (<[(tarindex + 1)%nat :=
                            to_uchar (Z.shiftl (Z.land pos 3) 6)]>
                          (or_at target tarindex (Z.shiftr pos 2)))
                       targsize
            | 3%Z =>
                if decide (targsize ≤ tarindex)%nat then None
                else b64_pton_loop src' 0 (tarindex + 1)
                       (or_at target tarindex pos) targsize
            | _ => None
            end
        end
  end.

(** Modelled from the spec: the decoder's skipping of white space (body not
    under src/): the text from its first character that is not white space
    on. *)
Fixpoint skip_spaces (s : string) : string :=
  match s with
  | EmptyString => EmptyString
  | String ch s' => if isspace ch then skip_spaces s' else s
  end.

(** Modelled from the spec: the decoder's check after a final [=] (body not
    under src/): only white space may follow, and the bits that slopped
    past the last full byte must be zero (bad padding otherwise). *)
Definition pton_tail (rest : string) (tarindex : nat) (target : list byte)
  : option (nat * list byte) :=
  match skip_spaces rest with
  | EmptyString =>
      if decide (uchar (target !!! tarindex) ≠ 0%Z) then None
      else Some (tarindex, target)
  | String _ _ => None
  end.

(** Modelled from the spec: the part of [b64_pton] after its main loop (body
    not under src/): at the end of the text the last group must be complete;
    at a [=] the group must hold one byte (a second [=] is then required) or
    two bytes, and [pton_tail] checks what follows. *)
Definition b64_pton_end (r : option (loop_exit * pton_state))
  : option (nat * list byte) :=
  match r with
  | None => None
  | Some (AtNul, s) =>
      if decide (st_state s ≠ 0%Z) then None
      else Some (st_tarindex s, st_target s)
  | Some (AtPad rest, s) =>
      match st_state s with
      | 2%Z =>
          match skip_spaces rest with
          | String ch rest' =>
              if Ascii.eqb ch Pad64
              then pton_tail rest' (st_tarindex s) (st_target s)
              else None
          | EmptyString => None
          end
      | 3%Z => pton_tail rest (st_tarindex s) (st_target s)
      | _ => None
      end
  end.

(** Modelled from the spec: [b64_pton] (body not under src/).  [None] is the
    C function's [-1] ([EncodingError] in the spec: invalid alphabet, bad
    padding); the C return value is the number of bytes stored in
    [target]. *)
Definition b64_pton (src : string) (target : list byte) (targsize : nat)
  : option (nat * list byte) :=
  b64_pton_end (b64_pton_loop src 0 0 target targsize).

(** The decoding step of [SshPluginInstance::OnRead]: a zero-filled buffer
    of [str.size() * 3 / 4] bytes, [b64_pton] into it, and the first [res]
    bytes of the buffer; [None] when [res < 0]. *)
Definition OnRead_decode (str : string) : option (list byte) :=
  let buf := replicate (String.length str * 3 / 4) x00 in
  match b64_pton str buf (length buf) with
  | Some (res, buf') => Some (take res buf')
  | None => None
  end.

End Codec.

(** ** JSON values *)

(** Modelled from the spec: [Json::Value] and its accessors ([json/value.h]
    is not under src/).  The spec's envelope arguments are dynamically typed
    values: number, string, boolean, array, object (section 3), and a
    missing array element or object member reads as null.  Numbers are the
    integers an [int] argument carries; real-valued numbers are outside the
    model. *)
Inductive Json :=
| JNull
| JInt (z : Z)
| JString (s : string)
| JBool (b : bool)
| JArray (l : list Json)
| JObject (m : gmap string Json).

Module Value.

(** Modelled from the spec: the type tests of [Json::Value]
    ([json/value.h] is not under src/), one per kind of value the spec
    lists. *)
Definition isNumeric (v : Json) : bool :=
  match v with JInt _ => true | _ => false end.
Definition isString (v : Json) : bool :=
  match v with JString _ => true | _ => false end.
Definition isBool (v : Json) : bool :=
  match v with JBool _ => true | _ => false end.
Definition isArray (v : Json) : bool :=
  match v with JArray _ => true | _ => false end.
Definition isObject (v : Json) : bool :=
  match v with JObject _ => true | _ => false end.

(** Modelled from the spec: the conversions of [Json::Value] (not under
    src/).  Null converts to the zero of the target type and a boolean to 0
    or 1; a value of another kind is not convertible, which the library
    reports by a failed assertion ([None]). *)
Definition asInt (v : Json) : option Z :=
  match v with
  | JNull => Some 0%Z
  | JInt z => Some z
  | JBool b => Some (if b then 1%Z else 0%Z)
  | _ => None
  end.

Definition asUInt (v : Json) : option Z :=
  match v with
  | JNull => Some 0%Z
  | JInt z => if decide (0 ≤ z)%Z then Some z else None
  | JBool b => Some (if b then 1%Z else 0%Z)
  | _ => None
  end.

Definition asString (v : Json) : option string :=
  match v with
  | JNull => Some EmptyString
  | JString s => Some s
  | JBool b => Some (if b then "true" else "false")%string
  | _ => None
  end.

Definition asBool (v : Json) : bool :=
  match v with
  | JBool b => b
  | JInt z => bool_decide (z ≠ 0%Z)
  | JString s => bool_decide (s ≠ EmptyString)
  | JArray l => bool_decide (l ≠ [])
  | JObject m => bool_decide (m ≠ ∅)
  | JNull => false
  end.

(** Modelled from the spec: [v.isMember(key)] ([json/value.h] is not under
    src/): whether the object has a field of that name. *)
Definition isMember (key : string) (v : Json) : bool :=
  match v with
  | JObject m => bool_decide (is_Some (m !! key))
  | _ => false
  end.

(** Modelled from the spec: [v[key]] ([json/value.h] is not under src/):
    the field of that name; null when there is none. *)
Definition member (key : string) (v : Json) : Json :=
  match v with
  | JObject m => default JNull (m !! key)
  | _ => JNull
  end.

(** Modelled from the spec: [args[(size_t)i]] on a constant array
    ([json/value.h] is not under src/): null past the end. *)
Definition at_index (args : list Json) (i : nat) : Json :=
  default JNull (args !! i).

End Value.

(** ** Message and attribute names *)

Definition kStartSessionMethodId : string := "startSession".
Definition kOnOpenFileMethodId : string := "onOpenFile".
Definition kOnOpenSocketMethodId : string := "onOpenSocket".
Definition kOnReadMethodId : string := "onRead".
Definition kOnWriteAcknowledgeMethodId : string := "onWriteAcknowledge".
Definition kOnCloseMethodId : string := "onClose".
Definition kOnReadReadyMethodId : string := "onReadReady".
Definition kOnResizeMethodId : string := "onResize".
Definition kOnExitAcknowledgeMethodId : string := "onExitAcknowledge".

Definition kUsernameAttr : string := "username".
Definition kHostAttr : string := "host".
Definition kPortAttr : string := "port".
Definition kTerminalWidthAttr : string := "terminalWidth".
Definition kTerminalHeightAttr : string := "terminalHeight".
Definition kUseJsSocketAttr : string := "useJsSocket".
Definition kEnvironmentAttr : string := "environment".
Definition kArgumentsAttr : string := "arguments".
Definition kWriteWindowAttr : string := "writeWindow".
Definition kAuthAgentAppID : string := "authAgentAppID".
Definition kSubsystemAttr : string := "subsystem".

Definition kPrintLogMethodId : string := "printLog".
Definition kExitMethodId : string := "exit".
Definition kOpenFileMethodId : string := "openFile".
Definition kOpenSocketMethodId : string := "openSocket".
Definition kWriteMethodId : string := "write".
Definition kReadMethodId : string := "read".
Definition kCloseMethodId : string := "close".


(** ** The plugin instance *)

(** A stream handle ([InputInterface*]) and a thread handle ([pthread_t])
    are known by their identity only. *)
Definition InputInterface := positive.
Definition pthread_t := positive.

(** The calls the plugin makes on a stream handle. *)
Inductive stream_call :=
| StreamOnOpen (success is_atty : bool)
| StreamOnRead (data : list byte)
| StreamOnWriteAcknowledge (count : Z)
| StreamOnClose
| StreamOnReadReady (result : bool).

(** The calls the plugin makes on its [file_system_] member. *)
Inductive fs_call :=
| FsWaitForStdFiles
| FsSetTerminalSize (width height : Z)
| FsUseJsSocket (use : bool)
| FsExitCodeAcked.

(** A callback handed to [CallOnMainThread]. *)
Inductive main_thread_call :=
| CallPrintLogImpl (msg : string)
| CallSendExitCodeImpl (error : Z).

(** The [{name, arguments}] message given to [PostMessage]. *)
Record Envelope := {
  env_name : string;
  env_arguments : list Json;
}.

(** The fields of [SshPluginInstance], with the process environment and,
    as histories (oldest first), what the instance has sent out: the posted
    messages, the callbacks waiting for the main thread, and the calls made
    on stream handles and on the file system. *)
Record SshPluginInstance := {
  openssh_thread_ : option pthread_t;
  session_args_ : Json;
  streams_ : gmap Z InputInterface;
  environ : gmap string string;
  posted : list Envelope;
  main_thread_queue : list main_thread_call;
  stream_calls : list (InputInterface * stream_call);
  file_system_calls : list fs_call;
}.

Definition set_openssh_thread_ (t : option pthread_t) (st : SshPluginInstance) :=
  {| openssh_thread_ := t;
     session_args_ := session_args_ st;
     streams_ := streams_ st;
     environ := environ st;
     posted := posted st;
     main_thread_queue := main_thread_queue st;
     stream_calls := stream_calls st;
     file_system_calls := file_system_calls st |}.

Definition set_session_args_ (v : Json) (st : SshPluginInstance) :=
  {| openssh_thread_ := openssh_thread_ st;
     session_args_ := v;
     streams_ := streams_ st;
     environ := environ st;
     posted := posted st;
     main_thread_queue := main_thread_queue st;
     stream_calls := stream_calls st;
     file_system_calls := file_system_calls st |}.

Definition set_streams_ (m : gmap Z InputInterface) (st : SshPluginInstance) :=
  {| openssh_thread_ := openssh_thread_ st;
     session_args_ := session_args_ st;
     streams_ := m;
     environ := environ st;
     posted := posted st;
     main_thread_queue := main_thread_queue st;
     stream_calls := stream_calls st;
     file_system_calls := file_system_calls st |}.

Definition set_environ (e : gmap string string) (st : SshPluginInstance) :=
  {| openssh_thread_ := openssh_thread_ st;
     session_args_ := session_args_ st;
     streams_ := streams_ st;
     environ := e;
     posted := posted st;
     main_thread_queue := main_thread_queue st;
     stream_calls := stream_calls st;
     file_system_calls := file_system_calls st |}.

Definition set_posted (l : list Envelope) (st : SshPluginInstance) :=
  {| openssh_thread_ := openssh_thread_ st;
     session_args_ := session_args_ st;
     streams_ := streams_ st;
     environ := environ st;
     posted := l;
     main_thread_queue := main_thread_queue st;
     stream_calls := stream_calls st;
     file_system_calls := file_system_calls st |}.

Definition set_main_thread_queue (q : list main_thread_call)
    (st : SshPluginInstance) :=
  {| openssh_thread_ := openssh_thread_ st;
     session_args_ := session_args_ st;
     streams_ := streams_ st;
     environ := environ st;
     posted := posted st;
     main_thread_queue := q;
     stream_calls := stream_calls st;
     file_system_calls := file_system_calls st |}.

Definition set_stream_calls (l : list (InputInterface * stream_call))
    (st : SshPluginInstance) :=
  {| openssh_thread_ := openssh_thread_ st;
     session_args_ := session_args_ st;
     streams_ := streams_ st;
     environ := environ st;
     posted := posted st;
     main_thread_queue := main_thread_queue st;
     stream_calls := l;
     file_system_calls := file_system_calls st |}.

Definition set_file_system_calls (l : list fs_call) (st : SshPluginInstance) :=
  {| openssh_thread_ := openssh_thread_ st;
     session_args_ := session_args_ st;
     streams_ := streams_ st;
     environ := environ st;
     posted := posted st;
     main_thread_queue := main_thread_queue st;
     stream_calls := stream_calls st;
     file_system_calls := l |}.

(** The instance as its constructor leaves it, in a given environment. *)
Definition new_instance (env : gmap string string) : SshPluginInstance :=
  {| openssh_thread_ := None;
     session_args_ := JNull;
     streams_ := ∅;
     environ := env;
     posted := [];
     main_thread_queue := [];
     stream_calls := [];
     file_system_calls := [] |}.

(** ** Methods as state transformers *)

(** A method either returns, or the process ends at a failed assertion
    (the [assert]s of the source, taken as enabled, and the failed
    conversions of the JSON library); both leave a state behind. *)
Inductive outcome (A : Type) :=
| Ret (a : A) (st : SshPluginInstance)
| Abort (st : SshPluginInstance).
Arguments Ret {A} a st.
Arguments Abort {A} st.

Definition M (A : Type) : Type := SshPluginInstance → outcome A.

#[global] Instance M_ret : MRet M := λ A a st, Ret a st.
#[global] Instance M_bind : MBind M := λ A B f m st,
  match m st with
  | Ret a st' => f a st'
  | Abort st' => Abort st'
  end.

Definition final_state {A} (o : outcome A) : SshPluginInstance :=
  match o with Ret _ st => st | Abort st => st end.

Definition modify (f : SshPluginInstance → SshPluginInstance) : M unit :=
  λ st, Ret () (f st).

(** [assert(c)] *)
Definition assert_ (c : bool) : M unit :=
  λ st, if c then Ret () st else Abort st.

(** A conversion of the JSON library that may fail. *)
Definition convert {A} (o : option A) : M A :=
  λ st, match o with Some a => Ret a st | None => Abort st end.

Definition when (c : bool) (m : M unit) : M unit :=
  if c then m else mret ().

Definition call_stream (h : InputInterface) (c : stream_call) : M unit :=
  modify (λ st, set_stream_calls (stream_calls st ++ [(h, c)]) st).

Definition call_file_system (c : fs_call) : M unit :=
  modify (λ st, set_file_system_calls (file_system_calls st ++ [c]) st).

(** [setenv(name, value, 1)] *)
Definition setenv (name value : string) : M unit :=
  modify (λ st, set_environ (<[name := value]> (environ st)) st).

Module Plugin.
Import Value.

Definition InvokeJS (function : string) (args : list Json) : M unit :=
  modify (λ st, set_posted (posted st ++ [Build_Envelope function args]) st).

Definition PrintLogImpl (msg : string) : M unit :=
  InvokeJS kPrintLogMethodId [JString msg].

Definition CallOnMainThread (c : main_thread_call) : M unit :=
  modify (λ st, set_main_thread_queue (main_thread_queue st ++ [c]) st).

Definition PrintLog (msg : string) : M unit :=
  CallOnMainThread (CallPrintLogImpl msg).

Definition SendExitCodeImpl (error : Z) : M unit :=
  InvokeJS kExitMethodId [JInt error].

Definition SendExitCode (error : Z) : M unit :=
  CallOnMainThread (CallSendExitCodeImpl error);;
  modify (set_openssh_thread_ None).

(** [name] may be a null pointer, in which case no request is sent. *)
Definition OpenFile (fd : Z) (name : option string) (mode : Z)
    (stream : InputInterface) : M bool :=
  when (bool_decide (is_Some name))
    (InvokeJS kOpenFileMethodId
       [JInt fd; JString (default EmptyString name); JInt mode]);;
  st ← (λ st, Ret st st);
  assert_ (bool_decide (streams_ st !! fd = None));;
  modify (λ st, set_streams_ (<[fd := stream]> (streams_ st)) st);;
  mret true.

Definition OpenSocket (fd : Z) (host : string) (port : Z)
    (stream : InputInterface) : M bool :=
  InvokeJS kOpenSocketMethodId [JInt fd; JString host; JInt port];;
  st ← (λ st, Ret st st);
  assert_ (bool_decide (streams_ st !! fd = None));;
  modify (λ st, set_streams_ (<[fd := stream]> (streams_ st)) st);;
  mret true.

Definition kMaxWriteSize : nat := 24 * 1024.

(** [buf.size()] in [Write] *)
Definition Write_buf_size : nat := kMaxWriteSize * 4 / 3 + 4.

(** The value [b64_ntop] returns: the length of the text, or [-1]. *)
Definition ntop_res (r : option string) : Z :=
  match r with
  | Some s => Z.of_nat (String.length s)
  | None => (-1)%Z
  end.

(** The [while (start < size)] loop of [Write]; [size] is the length of
    [data]. *)
Equations? Write_loop (fd : Z) (data : list byte) (start : nat)
    (st : SshPluginInstance) : outcome bool
    by wf (length data - start) lt :=
  Write_loop fd data start st with decide (start < length data) := {
    | right _ := Ret true st
    | left _ :=
        let chunk_size :=
          if decide (length data - start ≤ kMaxWriteSize)
          then length data - start else kMaxWriteSize in
        let buf := Codec.b64_ntop (take chunk_size (drop start data))
                     Write_buf_size in
        if decide (ntop_res buf ≤ 0)%Z
        then (assert_ (bool_decide (0 < ntop_res buf)%Z);; mret false) st
        else
          Write_loop fd data (start + chunk_size)
            (final_state
               (InvokeJS kWriteMethodId
                  [JInt fd; JString (default EmptyString buf)] st)) }.
Proof.
  unfold chunk_size. case_decide; unfold kMaxWriteSize in *; lia.
Qed.

Definition Write (fd : Z) (data : list byte) : M bool :=
  Write_loop fd data 0.

Definition Read (fd : Z) (size : Z) : M bool :=
  InvokeJS kReadMethodId [JInt fd; JInt size];; mret true.

Definition Close (fd : Z) : M bool :=
  InvokeJS kCloseMethodId [JInt fd];; mret true.


(** A diagnostic line: the message and its final newline. *)
Definition line (msg : string) : string := msg +:+ String "010"%char EmptyString.

(** [v.asCString()] on a value that passed [isString]. *)
Definition asCString (v : Json) : string :=
  match v with JString s => s | _ => EmptyString end.

(** The [for] loop over the [arguments] array in [SessionThreadImpl]. *)
Fixpoint push_arguments (args : list Json) (argv : list string)
  : M (list string) :=
  match args with
  | [] => mret argv
  | a :: rest =>
      if isString a then push_arguments rest (argv ++ [asCString a])
      else PrintLog (line "startSession: invalid argument");;
           push_arguments rest argv
  end.

Definition elements (v : Json) : list Json :=
  match v with JArray l => l | _ => [] end.

Definition members (v : Json) : gmap string Json :=
  match v with JObject m => m | _ => ∅ end.

Definition get_session_args_ : M Json := λ st, Ret (session_args_ st) st.

(** The part of [SessionThreadImpl] that builds the argument vector and
    the subsystem name for [ssh_main].  [DEBUG] is the compile-time macro
    of that name.  [session_args_] is read once: nothing in the body
    assigns it. *)
Definition SessionThread_argv (DEBUG : bool)
  : M (list string * option string) :=
  sa ← get_session_args_;
  let argv := ["ssh"%string] in
  let argv := if DEBUG then argv ++ ["-vvv"%string] else argv in
  argv ← (if isMember kArgumentsAttr sa && isArray (member kArgumentsAttr sa)
          then push_arguments (elements (member kArgumentsAttr sa)) argv
          else mret argv);
  argv ← (if isMember kPortAttr sa
          then p ← convert (asInt (member kPortAttr sa));
               mret (argv ++ ["-p" +:+ pretty p])
          else mret argv);
  argv ← (if isMember kUsernameAttr sa && isMember kHostAttr sa
          then u ← convert (asString (member kUsernameAttr sa));
               h ← convert (asString (member kHostAttr sa));
               mret (argv ++ [u +:+ "@" +:+ h])
          else mret argv);
  csubsystem ← (if isMember kSubsystemAttr sa
                then s ← convert (asString (member kSubsystemAttr sa));
                     mret (Some s)
                else mret None);
  mret (argv, csubsystem).

(** The body of the session thread.  [ssh_main] is the native entry point,
    which runs against the instance until it returns its exit status. *)
Definition SessionThreadImpl (DEBUG : bool)
    (ssh_main : list string → option string → M Z) : M unit :=
  call_file_system FsWaitForStdFiles;;
  inv ← SessionThread_argv DEBUG;
  rc ← ssh_main inv.1 inv.2;
  SendExitCode rc.

(** The loop over the [environment] object in [StartSession]. *)
Definition setenv_all (env : gmap string Json) : M unit :=
  foldr (λ kv rest, when (isString kv.2) (setenv kv.1 (asCString kv.2));; rest)
        (mret ()) (map_to_list env).

(** [pthread_create] is the answer of the thread library: the new thread's
    handle, stored in [openssh_thread_], or [None] for a non-zero return,
    on which the handle is left as it was. *)
Definition StartSession (pthread_create : option pthread_t)
    (args : list Json) : M unit :=
  λ st,
    if bool_decide (length args = 1) && isObject (at_index args 0)
       && bool_decide (openssh_thread_ st = None)
    then
      (let sa := at_index args 0 in
       modify (set_session_args_ sa);;
       when (isMember kTerminalWidthAttr sa
             && isNumeric (member kTerminalWidthAttr sa)
             && isMember kTerminalHeightAttr sa
             && isNumeric (member kTerminalHeightAttr sa))
         (w ← convert (asInt (member kTerminalWidthAttr sa));
          h ← convert (asInt (member kTerminalHeightAttr sa));
          call_file_system (FsSetTerminalSize w h));;
       when (isMember kUseJsSocketAttr sa
             && isBool (member kUseJsSocketAttr sa))
         (call_file_system
            (FsUseJsSocket (asBool (member kUseJsSocketAttr sa))));;
       when (isMember kEnvironmentAttr sa
             && isObject (member kEnvironmentAttr sa))
         (setenv_all (members (member kEnvironmentAttr sa)));;
       when (isMember kAuthAgentAppID sa
             && isString (member kAuthAgentAppID sa))
         (setenv "SSH_AUTH_SOCK" (asCString (member kAuthAgentAppID sa)));;
       match pthread_create with
       | Some tid => modify (set_openssh_thread_ (Some tid))
       | None => SendExitCodeImpl (-1)
       end) st
    else PrintLogImpl (line "startSession: invalid arguments") st.

(** [streams_.find(fd)] *)
Definition find_stream (fd : Z) : M (option InputInterface) :=
  λ st, Ret (streams_ st !! fd) st.

(** [streams_.erase(it)] for the iterator found at [fd]. *)
Definition erase_stream (fd : Z) : M unit :=
  modify (λ st, set_streams_ (delete fd (streams_ st)) st).

Definition OnOpen (args : list Json) : M unit :=
  let fd := at_index args 0 in
  let success := at_index args 1 in
  let is_atty := at_index args 2 in
  if isNumeric fd && isBool success && isBool is_atty then
    n ← convert (asInt fd);
    it ← find_stream n;
    match it with
    | Some stream =>
        call_stream stream (StreamOnOpen (asBool success) (asBool is_atty));;
        when (negb (asBool success)) (erase_stream n)
    | None => PrintLogImpl (line "onOpen: for unknown file descriptor")
    end
  else PrintLogImpl (line "onOpen: invalid arguments").

Definition OnRead (args : list Json) : M unit :=
  let fd := at_index args 0 in
  let data := at_index args 1 in
  if isNumeric fd && isString data then
    n ← convert (asInt fd);
    it ← find_stream n;
    match it with
    | Some stream =>
        match Codec.OnRead_decode (asCString data) with
        | Some bytes => call_stream stream (StreamOnRead bytes)
        | None => assert_ false
        end
    | None => PrintLogImpl (line "onRead: for unknown file descriptor")
    end
  else PrintLogImpl (line "onRead: invalid arguments").

Definition OnWriteAcknowledge (args : list Json) : M unit :=
  let fd := at_index args 0 in
  let count := at_index args 1 in
  if isNumeric fd && isNumeric count then
    n ← convert (asInt fd);
    it ← find_stream n;
    match it with
    | Some stream =>
        c ← convert (asUInt count);
        call_stream stream (StreamOnWriteAcknowledge c)
    | None =>
        PrintLogImpl (line "onWriteAcknowledge: for unknown file descriptor")
    end
  else PrintLogImpl (line "onWriteAcknowledge: invalid arguments").

Definition OnClose (args : list Json) : M unit :=
  let fd := at_index args 0 in
  n ← convert (asInt fd);
  it ← find_stream n;
  match it with
  | Some stream => call_stream stream StreamOnClose;; erase_stream n
  | None => PrintLogImpl (line "onClose: for unknown file descriptor")
  end.

Definition OnReadReady (args : list Json) : M unit :=
  let fd := at_index args 0 in
  let result := at_index args 1 in
  if isNumeric fd && isBool result then
    n ← convert (asInt fd);
    it ← find_stream n;
    match it with
    | Some stream => call_stream stream (StreamOnReadReady (asBool result))
    | None => PrintLogImpl (line "onReadReady: for unknown file descriptor")
    end
  else PrintLogImpl (line "onReadReady: invalid arguments").

Definition OnResize (args : list Json) : M unit :=
  w ← convert (asInt (at_index args 0));
  h ← convert (asInt (at_index args 1));
  call_file_system (FsSetTerminalSize w h).

Definition OnExitAcknowledge (args : list Json) : M unit :=
  call_file_system FsExitCodeAcked.

(** [HandleMessage] calls [Invoke] with a non-empty name and an array of
    arguments; [args] is the content of that array. *)
Definition Invoke (pthread_create : option pthread_t) (function : string)
    (args : list Json) : M unit :=
  if decide (function = kStartSessionMethodId) then
    StartSession pthread_create args
  else if decide (function = kOnOpenFileMethodId
                  ∨ function = kOnOpenSocketMethodId) then OnOpen args
  else if decide (function = kOnReadMethodId) then OnRead args
  else if decide (function = kOnWriteAcknowledgeMethodId) then
    OnWriteAcknowledge args
  else if decide (function = kOnCloseMethodId) then OnClose args
  else if decide (function = kOnReadReadyMethodId) then OnReadReady args
  else if decide (function = kOnResizeMethodId) then OnResize args
  else if decide (function = kOnExitAcknowledgeMethodId) then
    OnExitAcknowledge args
  else mret ().

End Plugin.

(** ** The two execution contexts *)

Module Run.
Import Plugin.

Definition run_main_thread_call (c : main_thread_call) : M unit :=
  match c with
  | CallPrintLogImpl msg => PrintLogImpl msg
  | CallSendExitCodeImpl error => SendExitCodeImpl error
  end.

(** Modelled from the spec: the main thread running the callbacks that
    [CallOnMainThread] queued ([pp::Core] is not under src/): calls from the
    session context are deferred onto the message-handling context, which
    runs them in order (section 5). *)
Definition run_main_thread_queue : M unit :=
  λ st,
    foldr (λ c rest, run_main_thread_call c;; rest) (mret ())
      (main_thread_queue st) (set_main_thread_queue [] st).

(** What can happen to the instance while the native entry point runs: a
    message from the host, a request of the native side through the file
    system layer, or the main thread running its queue. *)
Inductive event :=
| HostMessage (pthread_create : option pthread_t) (function : string)
    (args : list Json)
| NativeOpenFile (fd : Z) (name : option string) (mode : Z)
    (stream : InputInterface)
| NativeOpenSocket (fd : Z) (host : string) (port : Z)
    (stream : InputInterface)
| NativeWrite (fd : Z) (data : list byte)
| NativeRead (fd : Z) (size : Z)
| NativeClose (fd : Z)
| NativePrintLog (msg : string)
| MainThreadRuns.

Definition run_event (e : event) : M unit :=
  match e with
  | HostMessage pc function args => Invoke pc function args
  | NativeOpenFile fd name mode stream =>
      OpenFile fd name mode stream;; mret ()
  | NativeOpenSocket fd host port stream =>
      OpenSocket fd host port stream;; mret ()
  | NativeWrite fd data => Write fd data;; mret ()
  | NativeRead fd size => Read fd size;; mret ()
  | NativeClose fd => Close fd;; mret ()
  | NativePrintLog msg => PrintLog msg
  | MainThreadRuns => run_main_thread_queue
  end.

Fixpoint run_events (evs : list event) : M unit :=
  match evs with
  | [] => mret ()
  | e :: rest => run_event e;; run_events rest
  end.

(** A native entry point, seen from the instance: the events of its run
    and the status it returns. *)
Definition ssh_main_run (evs : list event) (rc : Z)
  : list string → option string → M Z :=
  λ _ _, run_events evs;; mret rc.

(** The test at the head of [StartSession]. *)
Definition accepted (args : list Json) (st : SshPluginInstance) : bool :=
  bool_decide (length args = 1) && Value.isObject (Value.at_index args 0)
  && bool_decide (openssh_thread_ st = None).

(** One session: the host's [startSession], and when it was accepted and
    the thread started, the thread's body to its end, after which the main
    thread runs its queue. *)
Definition session (DEBUG : bool) (pthread_create : option pthread_t)
    (args : list Json) (evs : list event) (rc : Z) : M unit :=
  λ st,
    (StartSession pthread_create args;;
     when (accepted args st && bool_decide (is_Some pthread_create))
       (SessionThreadImpl DEBUG (ssh_main_run evs rc);;
        run_main_thread_queue)) st.

End Run.

(** ** Sample data *)

(** The session configuration of the specification's example: user [u],
    host [h], port 2222, arguments [["-A"]], with a subsystem. *)
Definition example_config : gmap string Json :=
  list_to_map [(kUsernameAttr, JString "u"); (kHostAttr, JString "h");
               (kPortAttr, JInt 2222);
               (kArgumentsAttr, JArray [JString "-A"]);
               (kSubsystemAttr, JString "sftp")].

(** The state after one printed diagnostic. *)
Definition logged (msg : string) (st : SshPluginInstance) : SshPluginInstance :=
  set_posted (posted st ++ [Build_Envelope kPrintLogMethodId [JString msg]]) st.

(** An instance on which descriptor 3 is open, with handle 7. *)
Definition registry_example : SshPluginInstance :=
  set_streams_ {[ 3%Z := 7%positive ]} (new_instance ∅).

(** An instance whose session thread, with handle 5, is running. *)
Definition running_example : SshPluginInstance :=
  set_openssh_thread_ (Some 5%positive)
    (set_session_args_ (JObject example_config) registry_example).

(** ** Argument shapes *)

(** The argument list the specification's table of host messages (section
    6) gives for each message name, as one type test per argument. *)
Definition spec_arguments (function : string) : option (list (Json → bool)) :=
  if decide (function = kStartSessionMethodId) then Some [Value.isObject]
  else if decide (function = kOnOpenFileMethodId
                  ∨ function = kOnOpenSocketMethodId)
  then Some [Value.isNumeric; Value.isBool; Value.isBool]
  else if decide (function = kOnReadMethodId)
  then Some [Value.isNumeric; Value.isString]
  else if decide (function = kOnWriteAcknowledgeMethodId)
  then Some [Value.isNumeric; Value.isNumeric]
  else if decide (function = kOnCloseMethodId) then Some [Value.isNumeric]
  else if decide (function = kOnReadReadyMethodId)
  then Some [Value.isNumeric; Value.isBool]
  else if decide (function = kOnResizeMethodId)
  then Some [Value.isNumeric; Value.isNumeric]
  else if decide (function = kOnExitAcknowledgeMethodId) then Some []
  else None.

(** The validation the specification words for every handler (section
    4.5): the expected argument count, and each argument's type. *)
Definition spec_well_shaped (types : list (Json → bool)) (args : list Json)
  : bool :=
  bool_decide (length args = length types)
  && forallb (λ ta, ta.1 ta.2) (zip types args).

(** The validation the descriptor handlers of the source make: the type of
    the argument at each expected position, read as null when missing. *)
Definition types_checked (types : list (Json → bool)) (args : list Json)
  : bool :=
  forallb (λ it, it.2 (Value.at_index args it.1)) (imap pair types).

(** An envelope for an open result with a fourth argument. *)
Definition long_open_result : list Json :=
  [JInt 3; JBool false; JBool true; JNull].

(** ** The argument vector, as the specification words it *)

Module ArgvSpec.
Import Value.

(** The session's argument strings in their order; entries that are not
    strings are left out. *)
Definition argument_tokens (cfg : gmap string Json) : list string :=
  match cfg !! kArgumentsAttr with
  | Some (JArray l) =>
      omap (λ v, match v with JString s => Some s | _ => None end) l
  | _ => []
  end.

(** One diagnostic for each entry that is not a string. *)
Definition argument_logs (cfg : gmap string Json) : list main_thread_call :=
  match cfg !! kArgumentsAttr with
  | Some (JArray l) =>
      omap (λ v, match v with
                 | JString _ => None
                 | _ => Some (CallPrintLogImpl
                                (Plugin.line "startSession: invalid argument"))
                 end) l
  | _ => []
  end.

(** The optional [-p<port>] flag; [None] when the port has no integer
    form. *)
Definition port_flag (cfg : gmap string Json) : option (list string) :=
  match cfg !! kPortAttr with
  | Some p => n ← asInt p; Some ["-p" +:+ pretty n]
  | None => Some []
  end.

(** The optional [<user>@<host>] token; [None] when a field has no string
    form. *)
Definition user_host (cfg : gmap string Json) : option (list string) :=
  match cfg !! kUsernameAttr, cfg !! kHostAttr with
  | Some u, Some h =>
      us ← asString u; hs ← asString h; Some [us +:+ "@" +:+ hs]
  | _, _ => Some []
  end.

(** The optional subsystem name, passed beside the argument vector. *)
Definition subsystem (cfg : gmap string Json) : option (option string) :=
  match cfg !! kSubsystemAttr with
  | Some s => Some <$> asString s
  | None => Some None
  end.

(** Program name, optional verbose flag, argument strings, port flag,
    user and host. *)
Definition invocation (DEBUG : bool) (cfg : gmap string Json)
  : option (list string * option string) :=
  port ← port_flag cfg;
  uh ← user_host cfg;
  sub ← subsystem cfg;
  Some (["ssh"%string] ++ (if DEBUG then ["-vvv"%string] else [])
          ++ argument_tokens cfg ++ port ++ uh, sub).

End ArgvSpec.

(** A native entry point that returns at once. *)
Definition ssh_main_returns (rc : Z) : list string → option string → M Z :=
  λ _ _, mret rc.

(** The envelope [Write] posts for one chunk. *)
Definition write_envelope (fd : Z) (chunk : list byte) : Envelope :=
  Build_Envelope kWriteMethodId
    [JInt fd;
     JString (default EmptyString
                (Codec.b64_ntop chunk Plugin.Write_buf_size))].

(** What the host obtains from a [write] envelope: the descriptor and the
    decoded payload. *)
Definition decode_write (e : Envelope) : option (Z * list byte) :=
  match env_arguments e with
  | [JInt fd; JString text] => pair fd <$> Codec.OnRead_decode text
  | _ => None
  end.

(** A configuration with a user, a port, and no host. *)
Definition username_only_config : gmap string Json :=
  list_to_map [(kUsernameAttr, JString "u"); (kPortAttr, JInt 2222)].

(** The chunks of a payload: none empty, none above the ceiling, and all
    but the last one full. *)
Definition chunked (chunks : list (list byte)) : Prop :=
  ∀ i c, chunks !! i = Some c →
    0 < length c ≤ Plugin.kMaxWriteSize ∧
    (S i < length chunks → length c = Plugin.kMaxWriteSize).

(** The sequence of all 256 byte values. *)
Definition all_bytes : list byte := Codec.to_uchar <$> seqZ 0 256.

(** ** Observing exit reports *)

(** The [exit] envelopes among posted messages. *)
Definition exit_envelopes (l : list Envelope) : list Envelope :=
  filter (λ e, env_name e = kExitMethodId) l.

Definition exit_envelope (code : Z) : Envelope :=
  Build_Envelope kExitMethodId [JInt code].

(** The message a queued callback posts when the main thread runs it. *)
Definition envelope_of_call (c : main_thread_call) : Envelope :=
  match c with
  | CallPrintLogImpl msg => Build_Envelope kPrintLogMethodId [JString msg]
  | CallSendExitCodeImpl error => exit_envelope error
  end.

Definition is_exit_call (c : main_thread_call) : Prop :=
  match c with CallSendExitCodeImpl _ => True | CallPrintLogImpl _ => False end.

(** No exit report is waiting in the main thread's queue. *)
Definition no_exit_pending (st : SshPluginInstance) : Prop :=
  Forall (λ c, ¬ is_exit_call c) (main_thread_queue st).

(** A step that starts no thread, queues nothing and posts no [exit]. *)
Definition hushed (st st' : SshPluginInstance) : Prop :=
  openssh_thread_ st' = openssh_thread_ st ∧
  main_thread_queue st' = main_thread_queue st ∧
  ∃ new, posted st' = posted st ++ new ∧ exit_envelopes new = [].

(** A step that, taken while a session runs, leaves it running and
    neither queues nor posts an exit report. *)
Definition calm (st st' : SshPluginInstance) : Prop :=
  openssh_thread_ st ≠ None →
  openssh_thread_ st' = openssh_thread_ st ∧
  (no_exit_pending st →
   no_exit_pending st' ∧
   ∃ new, posted st' = posted st ++ new ∧ exit_envelopes new = []).

(** A method all of whose runs, returning or not, are related by [R]. *)
Definition preserves {A} (R : relation SshPluginInstance) (m : M A) : Prop :=
  ∀ st, R st (final_state (m st)).

(** A method that always returns, with [R] between the states. *)
Definition returning {A} (R : relation SshPluginInstance) (m : M A) : Prop :=
  ∀ st, ∃ a st', m st = Ret a st' ∧ R st st'.

(** [R], then [F]. *)
Definition and_then (R F : relation SshPluginInstance)
  : relation SshPluginInstance :=
  λ st st', ∃ st1, R st st1 ∧ F st1 st'.

(** What the end of an accepted [StartSession] does: it records the new
    thread's handle, or reports the exit code [-1] at once. *)
Definition thread_started (pthread_create : option pthread_t)
  : relation SshPluginInstance :=
  λ st st',
    st' = match pthread_create with
          | Some tid => set_openssh_thread_ (Some tid) st
          | None => set_posted (posted st ++ [exit_envelope (-1)]) st
          end.

(** A short session: the native side opens a socket, writes to it and logs
    a line while the host acknowledges and tries to start a second
    session. *)
Definition example_events : list Run.event :=
  [Run.NativeOpenSocket 4 "example.org" 22 8%positive;
   Run.HostMessage None kOnOpenSocketMethodId [JInt 4; JBool true; JBool false];
   Run.NativeWrite 4 [x4d; x61; x6e];
   Run.HostMessage (Some 6%positive) kStartSessionMethodId [JObject ∅];
   Run.NativePrintLog "connected";
   Run.MainThreadRuns;
   Run.HostMessage None kOnWriteAcknowledgeMethodId [JInt 4; JInt 3]].

(** ** Messages from the host *)

Module Host.
Import Value Plugin.

Definition kMessageNameAttr : string := "name".
Definition kMessageArgumentsAttr : string := "arguments".

(** The [pp::Var] the browser hands over: a string, or a value of another
    kind. *)
Inductive Var :=
| VarString (s : string)
| VarOther.

(** [parse] stands for [Json::Reader().parse], which is not under src/: the
    parsed root, or [None] when the text is not JSON.  An absent [name]
    reads as null, whose string form is empty. *)
Definition HandleMessage (parse : string → option Json)
    (pthread_create : option pthread_t) (message_data : Var) : M unit :=
  match message_data with
  | VarString text =>
      match parse text with
      | Some root =>
          if isObject root then
            function ← convert (asString (member kMessageNameAttr root));
            let args := member kMessageArgumentsAttr root in
            if negb (bool_decide (function = EmptyString)) && isArray args
            then Invoke pthread_create function (elements args)
            else mret ()
          else mret ()
      | None => mret ()
      end
  | VarOther => mret ()
  end.

End Host.

(** ** Observing the registry and the session *)

(** The nine names [Invoke] knows. *)
Definition handler_names : list string :=
  [kStartSessionMethodId; kOnOpenFileMethodId; kOnOpenSocketMethodId;
   kOnReadMethodId; kOnWriteAcknowledgeMethodId; kOnCloseMethodId;
   kOnReadReadyMethodId; kOnResizeMethodId; kOnExitAcknowledgeMethodId].

(** A step that leaves the registry and the history of handle calls as
    they are. *)
Definition same_streams (st st' : SshPluginInstance) : Prop :=
  streams_ st' = streams_ st ∧ stream_calls st' = stream_calls st.

(** A step that concerns at most the descriptor [fdo]: every other
    descriptor keeps its handle, no descriptor gains or changes one, and
    at most one call is made, on the handle registered for [fdo]. *)
Definition touches_only (fdo : option Z) (st st' : SshPluginInstance) : Prop :=
  (∀ fd, fdo ≠ Some fd → streams_ st' !! fd = streams_ st !! fd) ∧
  (∀ fd h, streams_ st' !! fd = Some h → streams_ st !! fd = Some h) ∧
  (stream_calls st' = stream_calls st ∨
   ∃ fd h c, fdo = Some fd ∧ streams_ st !! fd = Some h
             ∧ stream_calls st' = stream_calls st ++ [(h, c)]).

(** The calls on the file system that an accepted [startSession] makes
    for the terminal size and for the socket flavour. *)
Definition terminal_size_calls (cfg : gmap string Json) : list fs_call :=
  match cfg !! kTerminalWidthAttr, cfg !! kTerminalHeightAttr with
  | Some (JInt w), Some (JInt h) => [FsSetTerminalSize w h]
  | _, _ => []
  end.

Definition js_socket_calls (cfg : gmap string Json) : list fs_call :=
  match cfg !! kUseJsSocketAttr with
  | Some (JBool b) => [FsUseJsSocket b]
  | _ => []
  end.

(** The exit code a session reports. *)
Definition reported_code (pthread_create : option pthread_t) (rc : Z) : Z :=
  match pthread_create with Some _ => rc | None => (-1)%Z end.

(** A configuration with a terminal size, an environment and an agent. *)
Definition environment_config : gmap string Json :=
  list_to_map
    [(kTerminalWidthAttr, JInt 80); (kTerminalHeightAttr, JInt 24);
     (kUseJsSocketAttr, JBool true);
     (kEnvironmentAttr,
      JObject (list_to_map [("TERM"%string, JString "xterm");
                            ("LEVEL"%string, JInt 3)]));
     (kAuthAgentAppID, JString "agent-id");
     (kWriteWindowAttr, JInt 4096)].

(** The variables set by the loop over the [environment] object, entry
    after entry: a string value overwrites, any other value is skipped. *)
Definition setenv_entries (l : list (string * Json))
    (env : gmap string string) : gmap string string :=
  foldl (λ e kv, if Value.isString kv.2
                 then <[kv.1 := Plugin.asCString kv.2]> e else e) env l.

(** The value a configuration asks for a variable to have, if any: the
    agent identifier for [SSH_AUTH_SOCK], else the string the
    [environment] object gives the variable. *)
Definition configured_variable (cfg : gmap string Json) (name : string)
  : option string :=
  match cfg !! kAuthAgentAppID, decide (name = "SSH_AUTH_SOCK") with
  | Some (JString a), left _ => Some a
  | _, _ =>
      match cfg !! kEnvironmentAttr with
      | Some (JObject m) =>
          match m !! name with
          | Some (JString v) => Some v
          | _ => None
          end
      | _ => None
      end
  end.


(** A parser that knows one message, a resize to 80 by 24. *)
Definition example_parse (text : string) : option Json :=
  if decide (text = "resize")
  then Some (JObject (list_to_map
                        [(Host.kMessageNameAttr, JString kOnResizeMethodId);
                         (Host.kMessageArgumentsAttr,
                          JArray [JInt 80; JInt 24])]))
  else None.

(** * Properties *)

(** ** General list facts *)

(** Induction over a list three elements at a time, the stride of the
    base64 encoder. *)
Lemma list_ind3 {A} (P : list A → Prop) :
  P [] → (∀ a, P [a]) → (∀ a b, P [a; b]) →
  (∀ a b c l, P l → P (a :: b :: c :: l)) → ∀ l, P l.
Proof.
  intros H0 H1 H2 H3 l.
  assert (P l ∧ (∀ a, P (a :: l)) ∧ (∀ a b, P (a :: b :: l))) as [? _];
    [|done].
  induction l as [|x l (IH0 & IH1 & IH2)]; [by auto|].
  split_and!; auto.
Qed.

(** Linear arithmetic with division and remainder by constants, over [Z]
    and over [nat]. *)
Ltac div_lia := Z.div_mod_to_equations; lia.
Ltac nat_div_lia := zify; Z.div_mod_to_equations; lia.

(** ** The codec on sample inputs *)

Example ex_ntop_1 :
  Codec.b64_ntop [x4d; x61; x6e] 5 = Some "TWFu"%string.
Proof. reflexivity. Qed.
Example ex_ntop_2 : Codec.b64_ntop [x4d; x61] 5 = Some "TWE="%string.
Proof. reflexivity. Qed.
Example ex_ntop_3 : Codec.b64_ntop [x4d] 5 = Some "TQ=="%string.
Proof. reflexivity. Qed.
Example ex_ntop_4 : Codec.b64_ntop [x4d] 4 = None.
Proof. reflexivity. Qed.
Example ex_pton_1 : Codec.OnRead_decode "TWFu" = Some [x4d; x61; x6e].
Proof. reflexivity. Qed.
Example ex_pton_2 : Codec.OnRead_decode "TWE=" = Some [x4d; x61].
Proof. reflexivity. Qed.
Example ex_pton_3 : Codec.OnRead_decode "TQ==" = Some [x4d].
Proof. reflexivity. Qed.
Example ex_pton_4 : Codec.OnRead_decode "TQ=" = None.
Proof. reflexivity. Qed.
Example ex_pton_5 : Codec.OnRead_decode "T*==" = None.
Proof. reflexivity. Qed.
Example ex_pton_6 : Codec.OnRead_decode "" = Some [].
Proof. reflexivity. Qed.

(** ** Correctness of the codec *)

Section codec_facts.
Import Codec.
Local Open Scope Z_scope.

Lemma uchar_range b : 0 ≤ uchar b < 256.
Proof. unfold uchar. pose proof (Byte.to_N_bounded b). lia. Qed.

Lemma to_uchar_uchar b : to_uchar (uchar b) = b.
Proof.
  unfold to_uchar. pose proof (uchar_range b).
  rewrite Z.mod_small by done. unfold uchar.
  by rewrite N2Z.id, Byte.of_to_N.
Qed.

Lemma output0_eq a : output0 a = a / 4.
Proof. unfold output0. by rewrite Z.shiftr_div_pow2. Qed.

Lemma output1_eq a b : output1 a b = (a mod 4) * 16 + b / 16.
Proof.
  unfold output1. change 3 with (Z.ones 2).
  by rewrite Z.land_ones, Z.shiftl_mul_pow2, Z.shiftr_div_pow2.
Qed.

Lemma output2_eq b c : output2 b c = (b mod 16) * 4 + c / 64.
Proof.
  unfold output2. change 15 with (Z.ones 4).
  by rewrite Z.land_ones, Z.shiftl_mul_pow2, Z.shiftr_div_pow2.
Qed.

Lemma output3_eq c : output3 c = c mod 64.
Proof. unfold output3. change 63 with (Z.ones 6). by rewrite Z.land_ones. Qed.

Lemma output0_range a : 0 ≤ a < 256 → 0 ≤ output0 a < 64.
Proof. rewrite output0_eq. div_lia. Qed.

Lemma output1_range a b : 0 ≤ b < 256 → 0 ≤ output1 a b < 64.
Proof. rewrite output1_eq. div_lia. Qed.

Lemma output2_range b c : 0 ≤ c < 256 → 0 ≤ output2 b c < 64.
Proof. rewrite output2_eq. div_lia. Qed.

Lemma output3_range c : 0 ≤ output3 c < 64.
Proof. rewrite output3_eq. div_lia. Qed.

(** What the decoder extracts from the second and third digit. *)
Lemma output1_high a b : 0 ≤ b < 256 → Z.shiftr (output1 a b) 4 = a mod 4.
Proof. intros. rewrite output1_eq, Z.shiftr_div_pow2 by done. div_lia. Qed.

Lemma output1_low a b : 0 ≤ b < 256 → Z.land (output1 a b) 15 = b / 16.
Proof.
  intros. rewrite output1_eq. change 15 with (Z.ones 4).
  rewrite Z.land_ones by done. div_lia.
Qed.

Lemma output2_high b c : 0 ≤ c < 256 → Z.shiftr (output2 b c) 2 = b mod 16.
Proof. intros. rewrite output2_eq, Z.shiftr_div_pow2 by done. div_lia. Qed.

Lemma output2_low b c : 0 ≤ c < 256 → Z.land (output2 b c) 3 = c / 64.
Proof.
  intros. rewrite output2_eq. change 3 with (Z.ones 2).
  rewrite Z.land_ones by done. div_lia.
Qed.

(** Every digit is looked up again at its own place in the alphabet, and
    is neither white space nor the padding character. *)
Definition digit_ok (o : Z) : Prop :=
  strchr_Base64 (Base64_at o) = Some o ∧
  isspace (Base64_at o) = false ∧
  Ascii.eqb (Base64_at o) Pad64 = false.

Lemma digit_ok_all o : 0 ≤ o < 64 → digit_ok o.
Proof.
  revert o. apply (Forall_seqZ digit_ok 0 64).
  repeat (constructor; [by vm_compute|]). constructor.
Qed.

(** Reassembling a byte from the two digits that carry it. *)
Lemma merge_byte0 a :
  to_uchar (Z.lor (uchar (to_uchar (Z.shiftl (output0 (uchar a)) 2)))
                  (uchar a mod 4)) = a.
Proof. destruct a; by vm_compute. Qed.

Lemma merge_byte1 b :
  to_uchar (Z.lor (uchar (to_uchar (Z.shiftl (uchar b / 16) 4)))
                  (uchar b mod 16)) = b.
Proof. destruct b; by vm_compute. Qed.

Lemma merge_byte2 c :
  to_uchar (Z.lor (uchar (to_uchar (Z.shiftl (uchar c / 64) 6)))
                  (output3 (uchar c))) = c.
Proof. destruct c; by vm_compute. Qed.

Lemma or_at_insert (t : list byte) i x v :
  (i < length t)%nat →
  or_at (<[i:=x]> t) i v = <[i := to_uchar (Z.lor (uchar x) v)]> t.
Proof.
  intros. unfold or_at.
  rewrite list_lookup_total_insert_eq by done.
  by rewrite list_insert_insert_eq.
Qed.

(** One digit in each of the four positions of a group. *)
Lemma loop_state0 o s i t n :
  0 ≤ o < 64 → (i < n)%nat →
  b64_pton_loop (String (Base64_at o) s) 0 i t n =
  b64_pton_loop s 1 i (<[i := to_uchar (Z.shiftl o 2)]> t) n.
Proof.
  intros Ho Hi. destruct (digit_ok_all o Ho) as (H1 & H2 & H3).
  cbn [b64_pton_loop]. rewrite H1, H2, H3. case_decide; [lia|done].
Qed.

Lemma loop_state1 o s i t n :
  0 ≤ o < 64 → (i + 1 < n)%nat →
  b64_pton_loop (String (Base64_at o) s) 1 i t n =
  b64_pton_loop s 2 (i + 1)
    (<[(i + 1)%nat := to_uchar (Z.shiftl (Z.land o 15) 4)]>
       (or_at t i (Z.shiftr o 4))) n.
Proof.
  intros Ho Hi. destruct (digit_ok_all o Ho) as (H1 & H2 & H3).
  cbn [b64_pton_loop]. rewrite H1, H2, H3. case_decide; [lia|done].
Qed.

Lemma loop_state2 o s i t n :
  0 ≤ o < 64 → (i + 1 < n)%nat →
  b64_pton_loop (String (Base64_at o) s) 2 i t n =
  b64_pton_loop s 3 (i + 1)
    (<[(i + 1)%nat := to_uchar (Z.shiftl (Z.land o 3) 6)]>
       (or_at t i (Z.shiftr o 2))) n.
Proof.
  intros Ho Hi. destruct (digit_ok_all o Ho) as (H1 & H2 & H3).
  cbn [b64_pton_loop]. rewrite H1, H2, H3. case_decide; [lia|done].
Qed.

Lemma loop_state3 o s i t n :
  0 ≤ o < 64 → (i < n)%nat →
  b64_pton_loop (String (Base64_at o) s) 3 i t n =
  b64_pton_loop s 0 (i + 1) (or_at t i o) n.
Proof.
  intros Ho Hi. destruct (digit_ok_all o Ho) as (H1 & H2 & H3).
  cbn [b64_pton_loop]. rewrite H1, H2, H3. case_decide; [lia|done].
Qed.

(** The first two digits of a group rebuild its first byte and leave the
    high half of the second byte in the next cell. *)
Lemma loop_two_digits a b s i t n :
  0 ≤ b < 256 → length t = n → (i + 1 < n)%nat →
  b64_pton_loop
    (String (Base64_at (output0 (uchar a)))
       (String (Base64_at (output1 (uchar a) b)) s)) 0 i t n =
  b64_pton_loop s 2 (i + 1)
    (<[(i + 1)%nat := to_uchar (Z.shiftl (b / 16) 4)]> (<[i := a]> t)) n.
Proof.
  intros Hb Hn Hi. pose proof (uchar_range a).
  rewrite loop_state0 by (auto using output0_range || lia).
  rewrite loop_state1 by (auto using output1_range).
  rewrite or_at_insert by lia.
  by rewrite output1_high, output1_low, merge_byte0.
Qed.

(** The third digit completes the second byte. *)
Lemma loop_third_digit b c s i t n :
  0 ≤ c < 256 → length t = n → (i + 1 < n)%nat →
  b64_pton_loop (String (Base64_at (output2 (uchar b) c)) s) 2 i
    (<[i := to_uchar (Z.shiftl (uchar b / 16) 4)]> t) n =
  b64_pton_loop s 3 (i + 1)
    (<[(i + 1)%nat := to_uchar (Z.shiftl (c / 64) 6)]> (<[i := b]> t)) n.
Proof.
  intros Hc Hn Hi.
  rewrite loop_state2 by (auto using output2_range).
  rewrite or_at_insert by lia.
  by rewrite output2_high, output2_low, merge_byte1.
Qed.

(** A full group of four digits stores its three bytes. *)
Lemma loop_group a b c s i t n :
  length t = n → (i + 3 ≤ n)%nat →
  b64_pton_loop
    (String4 (Base64_at (output0 (uchar a)))
             (Base64_at (output1 (uchar a) (uchar b)))
             (Base64_at (output2 (uchar b) (uchar c)))
             (Base64_at (output3 (uchar c))) s) 0 i t n =
  b64_pton_loop s 0 (i + 3)
    (<[(i + 2)%nat := c]> (<[(i + 1)%nat := b]> (<[i := a]> t))) n.
Proof.
  intros Hn Hi. unfold String4.
  rewrite loop_two_digits by (auto using uchar_range || lia).
  rewrite loop_third_digit
    by (rewrite ?length_insert; auto using uchar_range || lia).
  rewrite loop_state3 by (auto using output3_range || lia).
  rewrite or_at_insert by (rewrite ?length_insert; lia).
  rewrite merge_byte2.
  by replace (i + 1 + 1 + 1)%nat with (i + 3)%nat by lia;
     replace (i + 1 + 1)%nat with (i + 2)%nat by lia.
Qed.

(** The padding character ends the main loop wherever it stands. *)
Lemma loop_pad s state i t n :
  b64_pton_loop (String Pad64 s) state i t n
  = Some (AtPad s, Build_pton_state state i t).
Proof. reflexivity. Qed.

(** After one byte of a last group: a second [=], then the end. *)
Lemma pton_end_pad2 i (t : list byte) :
  uchar (t !!! i) = 0 →
  b64_pton_end (Some (AtPad (String Pad64 ""), Build_pton_state 2 i t))
  = Some (i, t).
Proof.
  intros H. unfold b64_pton_end, pton_tail.
  cbn [st_state st_tarindex st_target].
  change (skip_spaces (String Pad64 "")) with (String Pad64 "").
  change (Ascii.eqb Pad64 Pad64) with true. cbn [skip_spaces].
  by case_decide.
Qed.

(** After two bytes of a last group: the end. *)
Lemma pton_end_pad3 i (t : list byte) :
  uchar (t !!! i) = 0 →
  b64_pton_end (Some (AtPad "", Build_pton_state 3 i t)) = Some (i, t).
Proof.
  intros H. unfold b64_pton_end, pton_tail.
  cbn [st_state st_tarindex st_target skip_spaces].
  by case_decide.
Qed.

Lemma take_S_insert (t : list byte) i a :
  (i < length t)%nat → take (S i) (<[i:=a]> t) = take i t ++ [a].
Proof.
  intros Hi. rewrite (take_S_r _ _ a) by by apply list_lookup_insert_eq.
  by rewrite take_insert_ge.
Qed.

(** The encoder succeeds exactly when the text and its NUL fit, and the
    text has four characters per started group of three bytes. *)
Lemma ntop_from_Some src : ∀ dl ts,
  (dl + 4 * ((length src + 2) / 3) < ts)%nat →
  ∃ s, b64_ntop_from src dl ts = Some s ∧
       String.length s = (4 * ((length src + 2) / 3))%nat.
Proof.
  induction src as [|a|a b|a b c l IH] using list_ind3; intros dl ts Hts;
    cbn [b64_ntop_from length] in *.
  - case_decide; [nat_div_lia|]. eexists; split; reflexivity.
  - repeat case_decide; try nat_div_lia. eexists; split; reflexivity.
  - repeat case_decide; try nat_div_lia. eexists; split; reflexivity.
  - case_decide; [nat_div_lia|].
    destruct (IH (dl + 4)%nat ts) as (s & -> & Hs); [nat_div_lia|].
    eexists; split; [done|]. cbn [String4 String.length]. nat_div_lia.
Qed.

Lemma ntop_from_fits src : ∀ dl ts s,
  b64_ntop_from src dl ts = Some s →
  (dl + 4 * ((length src + 2) / 3) < ts)%nat ∧
  String.length s = (4 * ((length src + 2) / 3))%nat.
Proof.
  induction src as [|a|a b|a b c l IH] using list_ind3; intros dl ts s;
    cbn [b64_ntop_from length].
  - case_decide; [done|]. intros [= <-]. split; [nat_div_lia|done].
  - repeat case_decide; try done. intros [= <-]. split; [nat_div_lia|done].
  - repeat case_decide; try done. intros [= <-]. split; [nat_div_lia|done].
  - case_decide; [done|].
    destruct (b64_ntop_from l (dl + 4) ts) as [s'|] eqn:Hl; [|done].
    intros [= <-]. apply IH in Hl as [? Hs].
    cbn [String4 String.length]. split; nat_div_lia.
Qed.

(** Decoding what the encoder wrote, from any group boundary [i] of a
    target with room for the groups: the bytes land at [i] onwards. *)
Lemma pton_ntop_from src : ∀ dl ts s i (t : list byte),
  b64_ntop_from src dl ts = Some s →
  (i + 3 * ((length src + 2) / 3) ≤ length t)%nat →
  ∃ t', b64_pton_end (b64_pton_loop s 0 i t (length t))
        = Some ((i + length src)%nat, t') ∧
        take (i + length src) t' = take i t ++ src.
Proof.
  induction src as [|a|a b|a b c l IH] using list_ind3;
    intros dl ts s i t; cbn [b64_ntop_from length].
  - case_decide; [done|]. intros [= <-] Hi. exists t.
    cbn. rewrite Nat.add_0_r. by rewrite app_nil_r.
  - repeat case_decide; try done. intros [= <-] Hi. unfold String4.
    rewrite loop_two_digits by (done || nat_div_lia).
    rewrite !loop_pad. eexists. split.
    + apply pton_end_pad2.
      by rewrite list_lookup_total_insert_eq
        by (rewrite length_insert; nat_div_lia).
    + rewrite take_insert_ge by lia.
      replace (i + 1)%nat with (S i) by lia.
      apply take_S_insert. nat_div_lia.
  - repeat case_decide; try done. intros [= <-] Hi. unfold String4.
    rewrite loop_two_digits by (auto using uchar_range || nat_div_lia).
    rewrite loop_third_digit
      by (rewrite ?length_insert; done || nat_div_lia).
    rewrite !loop_pad.
    replace (i + 1 + 1)%nat with (i + 2)%nat by lia.
    eexists. split.
    + apply pton_end_pad3.
      by rewrite list_lookup_total_insert_eq
        by (rewrite !length_insert; nat_div_lia).
    + rewrite take_insert_ge by lia.
      replace (i + 2)%nat with (S (i + 1)) by lia.
      rewrite take_S_insert by (rewrite length_insert; nat_div_lia).
      replace (i + 1)%nat with (S i) by lia.
      rewrite take_S_insert by nat_div_lia.
      by rewrite <-app_assoc.
  - case_decide; [done|].
    destruct (b64_ntop_from l (dl + 4) ts) as [s'|] eqn:Hl; [|done].
    intros [= <-] Hi.
    rewrite loop_group by (done || nat_div_lia).
    set (t3 := <[(i + 2)%nat:=c]> (<[(i + 1)%nat:=b]> (<[i:=a]> t))).
    assert (length t3 = length t) as Hlen
      by (unfold t3; by rewrite !length_insert).
    rewrite <-Hlen.
    destruct (IH _ _ _ (i + 3)%nat t3 Hl) as (t' & Hdec & Htake);
      [nat_div_lia|].
    exists t'. replace (i + S (S (S (length l))))%nat
      with (i + 3 + length l)%nat by lia.
    split; [done|]. rewrite Htake. unfold t3.
    replace (i + 3)%nat with (S (i + 2)) by lia.
    rewrite take_S_insert by (rewrite !length_insert; lia).
    replace (i + 2)%nat with (S (i + 1)) by lia.
    rewrite take_S_insert by (rewrite !length_insert; lia).
    replace (i + 1)%nat with (S i) by lia.
    rewrite take_S_insert by lia.
    by rewrite <-!app_assoc.
Qed.

(** The codec as the plugin uses it: whatever [b64_ntop] produced is
    decoded by [OnRead]'s buffer back to the bytes. *)
Lemma OnRead_decode_ntop src ts s :
  b64_ntop src ts = Some s → OnRead_decode s = Some src.
Proof.
  intros Hs. unfold OnRead_decode, b64_pton.
  pose proof (ntop_from_fits _ _ _ _ Hs) as [_ Hlen].
  set (buf := replicate _ x00).
  destruct (pton_ntop_from src 0%nat ts s 0%nat buf Hs) as (t' & -> & Ht).
  { unfold buf. rewrite length_replicate, Hlen. nat_div_lia. }
  by rewrite Ht.
Qed.

Lemma b64_ntop_Some src ts :
  (4 * ((length src + 2) / 3) < ts)%nat →
  ∃ s, b64_ntop src ts = Some s ∧
       String.length s = (4 * ((length src + 2) / 3))%nat.
Proof. intros. by apply ntop_from_Some. Qed.

End codec_facts.

(** ** The session's argument vector on the specification's example *)

Section examples.
Import Plugin.

Example SessionThread_argv_example :
  ∃ st', SessionThread_argv false
           (set_session_args_ (JObject example_config) (new_instance ∅))
         = Ret (["ssh"; "-A"; "-p2222"; "u@h"]%string, Some "sftp"%string) st'.
Proof. eexists. vm_compute. reflexivity. Qed.
End examples.

(** ** The descriptor registry *)

Section registry.
Import Value Plugin.

(** Unfolding of the state-and-failure monad. *)
Ltac run :=
  unfold mbind, mret, M_bind, M_ret, modify, when, assert_, convert,
    find_stream, erase_stream, call_stream, call_file_system,
    PrintLogImpl, InvokeJS, logged in *;
  cbn -[line] in *.

(** C3. While a descriptor is registered, registering it again through
    [OpenFile] or [OpenSocket] is refused (the call ends at its
    assertion instead of returning) and the map from descriptors to
    handles is left as it was. *)
Theorem registered_fd_not_registered_again
    (st : SshPluginInstance) (fd : Z) (h stream : InputInterface)
    (name : option string) (mode : Z) (host : string) (port : Z) :
  streams_ st !! fd = Some h →
  (∃ st', OpenFile fd name mode stream st = Abort st'
          ∧ streams_ st' = streams_ st) ∧
  (∃ st', OpenSocket fd host port stream st = Abort st'
          ∧ streams_ st' = streams_ st).
Proof.
  intros Hfd. split.
  - unfold OpenFile. destruct name as [n|]; run; rewrite Hfd; run;
      by eexists.
  - unfold OpenSocket. run. rewrite Hfd. run. by eexists.
Qed.

Lemma registered_fd_not_registered_again_witness :
  (∃ st', OpenFile 3 (Some "/dev/tty"%string) 2 9%positive registry_example
          = Abort st'
          ∧ streams_ st' = streams_ registry_example) ∧
  (∃ st', OpenSocket 3 "example.org" 22 9%positive registry_example
          = Abort st'
          ∧ streams_ st' = streams_ registry_example).
Proof.
  apply (registered_fd_not_registered_again registry_example 3 7%positive).
  reflexivity.
Defined.

(** A fresh descriptor, by contrast, is registered. *)
Lemma OpenSocket_fresh st fd host port stream :
  streams_ st !! fd = None →
  ∃ st', OpenSocket fd host port stream st = Ret true st'
         ∧ streams_ st' = <[fd := stream]> (streams_ st).
Proof. intros Hfd. unfold OpenSocket. run. rewrite Hfd. run. by eexists. Qed.

(** C8. For a registered descriptor, an open result with [success =
    false], under either message name, is forwarded to the handle and
    the descriptor is then unregistered, so that a following [onClose]
    for it only logs the unknown descriptor; an open result with
    [success = true] is forwarded and leaves the descriptor
    registered. *)
Theorem open_result_unregisters_on_failure
    (pc : option pthread_t) (function : string) (st : SshPluginInstance)
    (fd : Z) (h : InputInterface) (is_atty : bool) :
  function = kOnOpenFileMethodId ∨ function = kOnOpenSocketMethodId →
  streams_ st !! fd = Some h →
  (∃ st1,
     Invoke pc function [JInt fd; JBool false; JBool is_atty] st = Ret () st1
     ∧ stream_calls st1 = stream_calls st ++ [(h, StreamOnOpen false is_atty)]
     ∧ streams_ st1 = delete fd (streams_ st)
     ∧ streams_ st1 !! fd = None
     ∧ Invoke pc kOnCloseMethodId [JInt fd] st1
       = Ret () (logged (line "onClose: for unknown file descriptor") st1)) ∧
  (∃ st2,
     Invoke pc function [JInt fd; JBool true; JBool is_atty] st = Ret () st2
     ∧ stream_calls st2 = stream_calls st ++ [(h, StreamOnOpen true is_atty)]
     ∧ streams_ st2 = streams_ st).
Proof.
  intros Hf Hfd.
  assert (∀ args, Invoke pc function args st = OnOpen args st) as HI.
  { intros args. unfold Invoke. by destruct Hf as [-> | ->]. }
  rewrite !HI. split.
  - unfold OnOpen. run. rewrite Hfd. run.
    eexists. split_and!; try done.
    + apply lookup_delete_eq.
    + change (Invoke pc kOnCloseMethodId) with OnClose.
      unfold OnClose. run. by rewrite lookup_delete_eq.
  - unfold OnOpen. run. rewrite Hfd. run. by eexists.
Qed.

Lemma open_result_unregisters_on_failure_witness :
  (∃ st1,
     Invoke None kOnOpenFileMethodId [JInt 3; JBool false; JBool true]
       registry_example = Ret () st1
     ∧ stream_calls st1
       = stream_calls registry_example ++ [(7%positive, StreamOnOpen false true)]
     ∧ streams_ st1 = delete 3%Z (streams_ registry_example)
     ∧ streams_ st1 !! 3%Z = None
     ∧ Invoke None kOnCloseMethodId [JInt 3] st1
       = Ret () (logged (line "onClose: for unknown file descriptor") st1)) ∧
  (∃ st2,
     Invoke None kOnOpenFileMethodId [JInt 3; JBool true; JBool true]
       registry_example = Ret () st2
     ∧ stream_calls st2
       = stream_calls registry_example ++ [(7%positive, StreamOnOpen true true)]
     ∧ streams_ st2 = streams_ registry_example).
Proof.
  apply (open_result_unregisters_on_failure None kOnOpenFileMethodId
           registry_example 3 7%positive true).
  - left. reflexivity.
  - reflexivity.
Defined.

(** C9. For a descriptor that is not registered, [onRead], [onClose],
    [onWriteAcknowledge] and [onReadReady] each print one diagnostic and
    change nothing else; and whatever their arguments, [onRead],
    [onWriteAcknowledge] and [onReadReady] leave the registry as it
    is. *)
Theorem unknown_fd_logged_and_registry_kept
    (pc : option pthread_t) (st : SshPluginInstance) (fd : Z)
    (args : list Json) :
  at_index args 0 = JInt fd →
  streams_ st !! fd = None →
  (∀ function,
     function ∈ [kOnReadMethodId; kOnCloseMethodId;
                 kOnWriteAcknowledgeMethodId; kOnReadReadyMethodId] →
     ∃ msg, Invoke pc function args st = Ret () (logged msg st)) ∧
  (∀ st0 args0 function,
     function ∈ [kOnReadMethodId; kOnWriteAcknowledgeMethodId;
                 kOnReadReadyMethodId] →
     streams_ (final_state (Invoke pc function args0 st0)) = streams_ st0).
Proof.
  intros Hfd Hst. split.
  - intros function Hf.
    repeat (apply elem_of_cons in Hf as [-> | Hf]);
      [..|by apply elem_of_nil in Hf].
    + change (Invoke pc kOnReadMethodId) with OnRead.
      unfold OnRead. rewrite Hfd.
      destruct (isString (at_index args 1)); run;
        [rewrite Hst|]; by eexists.
    + change (Invoke pc kOnCloseMethodId) with OnClose.
      unfold OnClose. rewrite Hfd. run. rewrite Hst. by eexists.
    + change (Invoke pc kOnWriteAcknowledgeMethodId) with OnWriteAcknowledge.
      unfold OnWriteAcknowledge. rewrite Hfd.
      destruct (isNumeric (at_index args 1)); run;
        [rewrite Hst|]; by eexists.
    + change (Invoke pc kOnReadReadyMethodId) with OnReadReady.
      unfold OnReadReady. rewrite Hfd.
      destruct (isBool (at_index args 1)); run;
        [rewrite Hst|]; by eexists.
  - intros st0 args0 function Hf.
    repeat (apply elem_of_cons in Hf as [-> | Hf]);
      [..|by apply elem_of_nil in Hf].
    + change (Invoke pc kOnReadMethodId) with OnRead. unfold OnRead.
      destruct (isNumeric _ && isString _); [|done]. run.
      destruct (asInt (at_index args0 0)) as [n|]; [|done]. run.
      destruct (streams_ st0 !! n); [|done].
      by destruct (Codec.OnRead_decode _).
    + change (Invoke pc kOnWriteAcknowledgeMethodId) with OnWriteAcknowledge.
      unfold OnWriteAcknowledge.
      destruct (isNumeric _ && isNumeric _); [|done]. run.
      destruct (asInt (at_index args0 0)) as [n|]; [|done]. run.
      destruct (streams_ st0 !! n); [|done]. run.
      by destruct (asUInt _).
    + change (Invoke pc kOnReadReadyMethodId) with OnReadReady.
      unfold OnReadReady.
      destruct (isNumeric _ && isBool _); [|done]. run.
      destruct (asInt (at_index args0 0)) as [n|]; [|done]. run.
      by destruct (streams_ st0 !! n).
Qed.

Lemma unknown_fd_logged_and_registry_kept_witness :
  (∀ function,
     function ∈ [kOnReadMethodId; kOnCloseMethodId;
                 kOnWriteAcknowledgeMethodId; kOnReadReadyMethodId] →
     ∃ msg, Invoke None function [JInt 4; JString "TQ=="] registry_example
            = Ret () (logged msg registry_example)) ∧
  (∀ st0 args0 function,
     function ∈ [kOnReadMethodId; kOnWriteAcknowledgeMethodId;
                 kOnReadReadyMethodId] →
     streams_ (final_state (Invoke None function args0 st0)) = streams_ st0).
Proof.
  apply (unknown_fd_logged_and_registry_kept None registry_example 4
           [JInt 4; JString "TQ=="]); reflexivity.
Defined.

End registry.

(** ** The dispatcher's argument checks *)

Section dispatcher.
Import Value Plugin.

Ltac run :=
  unfold mbind, mret, M_bind, M_ret, modify, when, assert_, convert,
    find_stream, erase_stream, call_stream, call_file_system,
    PrintLogImpl, InvokeJS, logged in *;
  cbn -[line] in *.

(** C4, as the specification states it, fails: an open result with a
    fourth argument violates the expected argument count, yet it is
    applied (descriptor 3 is unregistered) and nothing is logged. *)
Lemma argument_count_not_validated :
  ¬ (∀ pc function types args st,
       spec_arguments function = Some types →
       spec_well_shaped types args = false →
       ∃ msg, Invoke pc function args st = Ret () (logged msg st)).
Proof.
  intros H.
  destruct (H None kOnOpenFileMethodId _ long_open_result registry_example
              eq_refl eq_refl) as [msg Hmsg].
  apply (f_equal (λ o, streams_ (final_state o) !! 3%Z)) in Hmsg.
  by vm_compute in Hmsg.
Qed.

Lemma at_index_app_l (args extra : list Json) i :
  i < length args → at_index (args ++ extra) i = at_index args i.
Proof. intros. unfold at_index. by rewrite lookup_app_l. Qed.

(** C4, amended.  [startSession] validates that it has exactly one
    argument and that it is an object, and [onOpenFile]/[onOpenSocket],
    [onRead], [onWriteAcknowledge] and [onReadReady] validate the type of
    the argument at each expected position (a missing argument reads as
    null and fails) before acting: on a violation the handler prints one
    diagnostic and changes nothing else.  The descriptor handlers do not
    check the argument count: arguments after the expected ones are
    ignored, as are all arguments of [onExitAcknowledge]. *)
Theorem argument_types_validated
    (pc : option pthread_t) (function : string)
    (types : list (Json → bool)) (args extra : list Json)
    (st : SshPluginInstance) :
  function ∈ [kOnOpenFileMethodId; kOnOpenSocketMethodId; kOnReadMethodId;
              kOnWriteAcknowledgeMethodId; kOnReadReadyMethodId] →
  spec_arguments function = Some types →
  (types_checked types args = false →
   ∃ msg, Invoke pc function args st = Ret () (logged msg st)) ∧
  (length args < length types → types_checked types args = false) ∧
  (length args = length types →
   Invoke pc function (args ++ extra) st = Invoke pc function args st) ∧
  (spec_well_shaped [isObject] args = false →
   ∃ msg, Invoke pc kStartSessionMethodId args st = Ret () (logged msg st)) ∧
  Invoke pc kOnExitAcknowledgeMethodId args st
  = Invoke pc kOnExitAcknowledgeMethodId [] st.
Proof.
  intros Hf Hty. split_and!; [| | | |done].
  - intros Hbad.
    repeat (apply elem_of_cons in Hf as [-> | Hf]);
      [..|by apply elem_of_nil in Hf];
      injection Hty as <-; unfold types_checked in Hbad;
      cbn [imap forallb fst snd compose] in Hbad;
      rewrite andb_true_r in Hbad.
    + change (Invoke pc kOnOpenFileMethodId) with OnOpen. unfold OnOpen.
      rewrite andb_assoc in Hbad. rewrite Hbad. by eexists.
    + change (Invoke pc kOnOpenSocketMethodId) with OnOpen. unfold OnOpen.
      rewrite andb_assoc in Hbad. rewrite Hbad. by eexists.
    + change (Invoke pc kOnReadMethodId) with OnRead. unfold OnRead.
      rewrite Hbad. by eexists.
    + change (Invoke pc kOnWriteAcknowledgeMethodId) with OnWriteAcknowledge.
      unfold OnWriteAcknowledge. rewrite Hbad. by eexists.
    + change (Invoke pc kOnReadReadyMethodId) with OnReadReady.
      unfold OnReadReady. rewrite Hbad. by eexists.
  - intros Hlen.
    repeat (apply elem_of_cons in Hf as [-> | Hf]);
      [..|by apply elem_of_nil in Hf];
      injection Hty as <-; destruct args as [|a0 [|a1 [|a2 ?]]];
      cbn in Hlen; try lia; unfold types_checked; cbn;
      rewrite ?andb_false_r; done.
  - intros Hlen.
    repeat (apply elem_of_cons in Hf as [-> | Hf]);
      [..|by apply elem_of_nil in Hf];
      injection Hty as <-; cbn in Hlen.
    + change (Invoke pc kOnOpenFileMethodId) with OnOpen. unfold OnOpen.
      by rewrite !at_index_app_l by lia.
    + change (Invoke pc kOnOpenSocketMethodId) with OnOpen. unfold OnOpen.
      by rewrite !at_index_app_l by lia.
    + change (Invoke pc kOnReadMethodId) with OnRead. unfold OnRead.
      by rewrite !at_index_app_l by lia.
    + change (Invoke pc kOnWriteAcknowledgeMethodId) with OnWriteAcknowledge.
      unfold OnWriteAcknowledge. by rewrite !at_index_app_l by lia.
    + change (Invoke pc kOnReadReadyMethodId) with OnReadReady.
      unfold OnReadReady. by rewrite !at_index_app_l by lia.
  - intros Hbad. change (Invoke pc kStartSessionMethodId) with (StartSession pc).
    unfold StartSession. unfold spec_well_shaped in Hbad.
    destruct args as [|a0 [|a1 ?]]; cbn in Hbad |- *; try by eexists.
    rewrite andb_true_r in Hbad. change (at_index [a0] 0) with a0.
    rewrite Hbad. by eexists.
Qed.

Lemma argument_types_validated_witness :
  (∃ msg, Invoke None kOnReadMethodId [JInt 3] registry_example
          = Ret () (logged msg registry_example)) ∧
  types_checked [isNumeric; isString] [JInt 3] = false ∧
  Invoke None kOnOpenFileMethodId
    ([JInt 3; JBool false; JBool true] ++ [JNull]) registry_example
  = Invoke None kOnOpenFileMethodId [JInt 3; JBool false; JBool true]
      registry_example ∧
  (∃ msg, Invoke None kStartSessionMethodId [JInt 3] registry_example
          = Ret () (logged msg registry_example)) ∧
  Invoke None kOnExitAcknowledgeMethodId [JInt 3] registry_example
  = Invoke None kOnExitAcknowledgeMethodId [] registry_example.
Proof.
  destruct (argument_types_validated None kOnReadMethodId
              [isNumeric; isString] [JInt 3] [] registry_example)
    as (Hlog & Hshort & _ & Hstart & Hack).
  { by vm_compute; repeat constructor. }
  { reflexivity. }
  destruct (argument_types_validated None kOnOpenFileMethodId
              [isNumeric; isBool; isBool] [JInt 3; JBool false; JBool true]
              [JNull] registry_example)
    as (_ & _ & Hextra & _).
  { by vm_compute; repeat constructor. }
  { reflexivity. }
  split_and!.
  - apply Hlog. reflexivity.
  - apply Hshort. cbn. lia.
  - apply Hextra. reflexivity.
  - apply Hstart. reflexivity.
  - exact Hack.
Defined.

(** The two handlers that convert their arguments without a test:
    [onResize] without arguments sets a terminal size of 0 by 0, and
    [onClose] without arguments closes descriptor 0. *)
Example OnResize_without_arguments st :
  Invoke None kOnResizeMethodId [] st
  = Ret () (set_file_system_calls
              (file_system_calls st ++ [FsSetTerminalSize 0 0]) st).
Proof. reflexivity. Qed.

Example OnClose_without_arguments :
  ∃ st', Invoke None kOnCloseMethodId []
           (set_streams_ {[ 0%Z := 7%positive ]} (new_instance ∅))
         = Ret () st'
         ∧ streams_ st' = ∅ ∧ posted st' = [].
Proof. eexists. split_and!; reflexivity. Qed.

(** C5. While the session thread is running, [startSession] is refused
    with one printed diagnostic and changes nothing else: the captured
    configuration, the thread handle, the descriptor map and the
    environment stay as they are. *)
Theorem running_session_refuses_start
    (pc : option pthread_t) (args : list Json) (st : SshPluginInstance) :
  openssh_thread_ st ≠ None →
  ∃ st',
    Invoke pc kStartSessionMethodId args st = Ret () st'
    ∧ st' = logged (line "startSession: invalid arguments") st
    ∧ session_args_ st' = session_args_ st
    ∧ openssh_thread_ st' = openssh_thread_ st
    ∧ streams_ st' = streams_ st
    ∧ environ st' = environ st.
Proof.
  intros Hrun. change (Invoke pc kStartSessionMethodId) with (StartSession pc).
  unfold StartSession.
  rewrite (bool_decide_eq_false_2 _ Hrun), andb_false_r.
  eexists. by split_and!.
Qed.

Lemma running_session_refuses_start_witness :
  ∃ st',
    Invoke (Some 6%positive) kStartSessionMethodId [JObject ∅]
      running_example = Ret () st'
    ∧ st' = logged (line "startSession: invalid arguments") running_example
    ∧ session_args_ st' = session_args_ running_example
    ∧ openssh_thread_ st' = openssh_thread_ running_example
    ∧ streams_ st' = streams_ running_example
    ∧ environ st' = environ running_example.
Proof.
  apply (running_session_refuses_start (Some 6%positive) [JObject ∅]
           running_example).
  discriminate.
Defined.

End dispatcher.

(** ** The session thread's argument vector *)

Section session_argv.
Import Value Plugin.

Ltac run :=
  unfold mbind, mret, M_bind, M_ret, modify, when, assert_, convert,
    call_file_system, CallOnMainThread, PrintLog, get_session_args_ in *;
  cbn -[line] in *.

Lemma set_main_thread_queue_app st q1 q2 :
  set_main_thread_queue
    (main_thread_queue (set_main_thread_queue (main_thread_queue st ++ q1) st)
       ++ q2)
    (set_main_thread_queue (main_thread_queue st ++ q1) st)
  = set_main_thread_queue (main_thread_queue st ++ q1 ++ q2) st.
Proof. unfold set_main_thread_queue. cbn. by rewrite app_assoc. Qed.

Lemma set_main_thread_queue_nil st :
  set_main_thread_queue (main_thread_queue st ++ []) st = st.
Proof. destruct st. unfold set_main_thread_queue. cbn. by rewrite app_nil_r. Qed.

(** The loop appends the strings in order and queues one diagnostic for
    every other entry. *)
Lemma push_arguments_spec l : ∀ argv st,
  push_arguments l argv st
  = Ret (argv ++ omap (λ v, match v with JString s => Some s | _ => None end) l)
        (set_main_thread_queue
           (main_thread_queue st
              ++ omap (λ v, match v with
                            | JString _ => None
                            | _ => Some (CallPrintLogImpl
                                           (line "startSession: invalid argument"))
                            end) l) st).
Proof.
  induction l as [|v l IH]; intros argv st.
  - cbn. by rewrite app_nil_r, set_main_thread_queue_nil.
  - destruct v; cbn [push_arguments isString omap]; run;
      rewrite IH; try (by rewrite set_main_thread_queue_app).
    cbn. by rewrite <-app_assoc.
Qed.

(** The code builds what the specification words, and ends at a failed
    conversion exactly when the worded invocation has none. *)
Lemma SessionThread_argv_spec DEBUG cfg st :
  session_args_ st = JObject cfg →
  SessionThread_argv DEBUG st
  = let st1 := set_main_thread_queue
                 (main_thread_queue st ++ ArgvSpec.argument_logs cfg) st in
    match ArgvSpec.invocation DEBUG cfg with
    | Some inv => Ret inv st1
    | None => Abort st1
    end.
Proof.
  intros Hst. unfold SessionThread_argv, ArgvSpec.invocation,
    ArgvSpec.argument_tokens, ArgvSpec.argument_logs, ArgvSpec.port_flag,
    ArgvSpec.user_host, ArgvSpec.subsystem.
  run. rewrite Hst. unfold isMember, member.
  set (argv0 := if DEBUG then _ else _).
  set (tokens := match cfg !! kArgumentsAttr with
                 | Some (JArray l) => omap _ l | _ => [] end).
  set (logs := match cfg !! kArgumentsAttr with
               | Some (JArray l) => omap _ l | _ => [] end).
  assert ((if bool_decide (is_Some (cfg !! kArgumentsAttr))
              && isArray (default JNull (cfg !! kArgumentsAttr))
           then push_arguments
                  (elements (default JNull (cfg !! kArgumentsAttr))) argv0
           else λ st0, Ret argv0 st0) st
          = Ret (argv0 ++ tokens)
              (set_main_thread_queue (main_thread_queue st ++ logs) st))
    as ->.
  { unfold tokens, logs.
    destruct (cfg !! kArgumentsAttr) as [[]|]; cbn;
      rewrite ?push_arguments_spec, ?set_main_thread_queue_nil, ?app_nil_r;
      done. }
  assert (argv0 ++ tokens
          = ("ssh" :: (if DEBUG then ["-vvv"] else []) ++ tokens)%string)
    as -> by (unfold argv0; by destruct DEBUG).
  clearbody tokens logs. clear argv0.
  destruct (cfg !! kPortAttr) as [port|]; cbn;
    [destruct (asInt port); cbn; [|done]|];
    (destruct (cfg !! kUsernameAttr) as [u|]; cbn;
     [destruct (cfg !! kHostAttr) as [h|]; cbn;
      [destruct (asString u); cbn; [|done];
       destruct (asString h); cbn; [|done]|]|]);
    (destruct (cfg !! kSubsystemAttr) as [sub|]; cbn;
     [destruct (asString sub); cbn; [|done]|]);
    rewrite <-?app_assoc, ?app_nil_r; done.
Qed.

(** C6. For an accepted configuration the argument vector handed to the
    native entry point is, in this order: the program name [ssh], the
    verbose flag when compiled in, the configuration's argument strings
    in their order (one diagnostic is queued for every entry that is not
    a string, and the entry is skipped), the [-p<port>] flag when there
    is a port, and the [<user>@<host>] token when there are both; the
    subsystem name goes beside it, never into it. *)
Theorem argument_vector_order
    (DEBUG : bool) (ssh_main : list string → option string → M Z)
    (cfg : gmap string Json) (st : SshPluginInstance)
    (port uh : list string) (sub : option string) :
  session_args_ st = JObject cfg →
  ArgvSpec.port_flag cfg = Some port →
  ArgvSpec.user_host cfg = Some uh →
  ArgvSpec.subsystem cfg = Some sub →
  SessionThreadImpl DEBUG ssh_main st
  = (rc ← ssh_main
            (["ssh"%string] ++ (if DEBUG then ["-vvv"%string] else [])
               ++ ArgvSpec.argument_tokens cfg ++ port ++ uh) sub;
     SendExitCode rc)
      (set_main_thread_queue
         (main_thread_queue st ++ ArgvSpec.argument_logs cfg)
         (set_file_system_calls
            (file_system_calls st ++ [FsWaitForStdFiles]) st)).
Proof.
  intros Hst Hport Huh Hsub. unfold SessionThreadImpl.
  unfold mbind at 1, M_bind at 1, call_file_system, modify.
  unfold mbind at 1, M_bind at 1.
  rewrite (SessionThread_argv_spec DEBUG cfg) by done.
  unfold ArgvSpec.invocation. rewrite Hport, Huh, Hsub. reflexivity.
Qed.

Lemma argument_vector_order_witness :
  SessionThreadImpl false (ssh_main_returns 0)
    (set_session_args_ (JObject example_config) (new_instance ∅))
  = (rc ← ssh_main_returns 0
            (["ssh"%string] ++ [] ++ ["-A"%string] ++ ["-p2222"%string]
               ++ ["u@h"%string]) (Some "sftp"%string);
     SendExitCode rc)
      (set_main_thread_queue []
         (set_file_system_calls [FsWaitForStdFiles]
            (set_session_args_ (JObject example_config) (new_instance ∅)))).
Proof.
  apply (argument_vector_order false (ssh_main_returns 0) example_config
           (set_session_args_ (JObject example_config) (new_instance ∅))
           ["-p2222"%string] ["u@h"%string] (Some "sftp"%string));
    reflexivity.
Defined.

Lemma invocation_without_user_host DEBUG cfg :
  ArgvSpec.invocation DEBUG (delete kUsernameAttr (delete kHostAttr cfg))
  = port ← ArgvSpec.port_flag cfg;
    sub ← ArgvSpec.subsystem cfg;
    Some (["ssh"%string] ++ (if DEBUG then ["-vvv"%string] else [])
            ++ ArgvSpec.argument_tokens cfg ++ port, sub).
Proof.
  unfold ArgvSpec.invocation, ArgvSpec.port_flag, ArgvSpec.subsystem,
    ArgvSpec.user_host, ArgvSpec.argument_tokens.
  rewrite lookup_delete_eq.
  rewrite !(lookup_delete_ne _ kUsernameAttr), !(lookup_delete_ne _ kHostAttr)
    by done.
  destruct (cfg !! kPortAttr) as [p|]; cbn; [destruct (asInt p); cbn|];
    try done;
    (destruct (cfg !! kSubsystemAttr) as [s|]; cbn;
     [destruct (asString s); cbn|]); by rewrite ?app_nil_r.
Qed.

(** C10. The argument vector is built whenever the port has an integer
    form and the names have string forms; and whenever it is built, the
    [<user>@<host>] token is appended exactly when the configuration has
    both a [username] and a [host] field: otherwise the vector is the one
    built from the configuration with both fields removed, so a single
    field leaves no trace in it. *)
Theorem user_host_token_needs_both
    (DEBUG : bool) (cfg : gmap string Json) (st : SshPluginInstance) :
  session_args_ st = JObject cfg →
  (is_Some (ArgvSpec.invocation DEBUG cfg) →
   ∃ argv sub st', SessionThread_argv DEBUG st = Ret (argv, sub) st') ∧
  (∀ argv sub st',
     SessionThread_argv DEBUG st = Ret (argv, sub) st' →
     ∃ base st'',
       SessionThread_argv DEBUG
         (set_session_args_
            (JObject (delete kUsernameAttr (delete kHostAttr cfg))) st)
       = Ret (base, sub) st''
       ∧ match cfg !! kUsernameAttr, cfg !! kHostAttr with
         | Some u, Some h =>
             ∃ us hs, asString u = Some us ∧ asString h = Some hs
                      ∧ argv = base ++ [us +:+ "@" +:+ hs]
         | _, _ => argv = base
         end).
Proof.
  intros Hst. split.
  { intros [[argv sub] Hinv].
    rewrite (SessionThread_argv_spec DEBUG cfg) by done.
    cbn zeta. rewrite Hinv. by eexists _, _, _. }
  intros argv sub st' Hrun.
  rewrite (SessionThread_argv_spec DEBUG cfg) in Hrun by done.
  rewrite (SessionThread_argv_spec DEBUG
             (delete kUsernameAttr (delete kHostAttr cfg))) by done.
  rewrite invocation_without_user_host. cbn zeta in *.
  unfold ArgvSpec.invocation, ArgvSpec.user_host in Hrun.
  destruct (ArgvSpec.port_flag cfg) as [port|]; cbn in Hrun |- *; [|done].
  destruct (cfg !! kUsernameAttr) as [u|]; cbn in Hrun;
    [destruct (cfg !! kHostAttr) as [h|]; cbn in Hrun;
     [destruct (asString u) as [us|]; cbn in Hrun; [|done];
      destruct (asString h) as [hs|]; cbn in Hrun; [|done]|]|];
    (destruct (ArgvSpec.subsystem cfg) as [sub'|]; cbn in Hrun |- *;
     [|done]);
    injection Hrun as <- <- <-; do 2 eexists; (split; [done|]).
  - exists us, hs. split_and!; try done.
    by rewrite <-app_comm_cons, <-!app_assoc.
  - by rewrite app_nil_r.
  - by rewrite app_nil_r.
Qed.

Lemma user_host_token_needs_both_witness :
  (∃ argv sub st',
     SessionThread_argv false
       (set_session_args_ (JObject username_only_config) (new_instance ∅))
     = Ret (argv, sub) st') ∧
  (∃ base st'',
     SessionThread_argv false
       (set_session_args_
          (JObject (delete kUsernameAttr (delete kHostAttr username_only_config)))
          (set_session_args_ (JObject username_only_config) (new_instance ∅)))
     = Ret (base, None) st''
     ∧ ["ssh"; "-p2222"]%string = base).
Proof.
  destruct (user_host_token_needs_both false username_only_config
              (set_session_args_ (JObject username_only_config)
                 (new_instance ∅)) eq_refl) as [Hret Hshape].
  split.
  - apply Hret. by eexists.
  - apply (Hshape ["ssh"; "-p2222"]%string None
             (set_session_args_ (JObject username_only_config)
                (new_instance ∅))).
    reflexivity.
Defined.

End session_argv.

(** ** Chunked writes *)

Section chunked_write.
Import Value Plugin.

Lemma set_posted_nil st : set_posted (posted st ++ []) st = st.
Proof. destruct st. unfold set_posted. cbn. by rewrite app_nil_r. Qed.

Lemma set_posted_app st l1 l2 :
  set_posted (posted (set_posted (posted st ++ l1) st) ++ l2)
    (set_posted (posted st ++ l1) st)
  = set_posted (posted st ++ l1 ++ l2) st.
Proof. unfold set_posted. cbn. by rewrite app_assoc. Qed.

(** A chunk within the ceiling fits [Write]'s buffer, and its text is
    not empty. *)
Lemma chunk_encodes (c : list byte) :
  0 < length c ≤ kMaxWriteSize →
  ∃ s, Codec.b64_ntop c Write_buf_size = Some s ∧ 0 < String.length s.
Proof.
  intros Hc.
  destruct (b64_ntop_Some c Write_buf_size) as (s & Hs & Hlen).
  { unfold Write_buf_size, kMaxWriteSize in *. nat_div_lia. }
  exists s. split; [done|]. rewrite Hlen. nat_div_lia.
Qed.

Lemma Write_loop_spec fd data : ∀ n start st,
  length data - start = n → start ≤ length data →
  ∃ chunks,
    Write_loop fd data start st
    = Ret true (set_posted (posted st ++ (write_envelope fd <$> chunks)) st)
    ∧ mjoin chunks = drop start data
    ∧ length chunks = (n + kMaxWriteSize - 1) / kMaxWriteSize
    ∧ chunked chunks.
Proof.
  induction n as [n IH] using lt_wf_ind. intros start st Hn Hstart.
  rewrite Write_loop_equation_1.
  destruct (decide (start < length data)) as [Hlt|Hge];
    cbn [Write_loop_unfold_clause_1].
  - set (chunk_size := if decide (length data - start ≤ kMaxWriteSize)
                       then length data - start else kMaxWriteSize).
    set (chunk := take chunk_size (drop start data)).
    assert (0 < chunk_size ≤ kMaxWriteSize ∧ chunk_size ≤ length data - start)
      as Hsize.
    { unfold chunk_size. case_decide; unfold kMaxWriteSize in *; lia. }
    assert (length chunk = chunk_size) as Hlen.
    { unfold chunk. rewrite length_take, length_drop. lia. }
    destruct (chunk_encodes chunk) as (s & Hs & Hpos); [lia|].
    rewrite Hs. cbn [ntop_res]. case_decide; [lia|].
    destruct (IH (length data - (start + chunk_size)) ltac:(lia)
                (start + chunk_size)
                (final_state
                   (InvokeJS kWriteMethodId
                      [JInt fd; JString (default EmptyString (Some s))] st))
                eq_refl ltac:(lia)) as (rest & -> & Hjoin & Hcount & Hrest).
    exists (chunk :: rest). split_and!.
    + unfold InvokeJS, modify. cbn [final_state fmap list_fmap].
      rewrite set_posted_app. unfold write_envelope. by rewrite Hs.
    + change (mjoin (chunk :: rest)) with (chunk ++ mjoin rest).
      rewrite Hjoin. unfold chunk.
      rewrite <-drop_drop. apply take_drop.
    + cbn [length]. rewrite Hcount. subst n.
      unfold chunk_size in *. case_decide; unfold kMaxWriteSize in *;
        nat_div_lia.
    + intros [|i] c Hc; cbn in Hc.
      * injection Hc as <-. split; [lia|]. cbn [length]. intros Hmore.
        rewrite Hlen. unfold chunk_size in *.
        case_decide; [|done]. exfalso.
        rewrite Hcount in Hmore. unfold kMaxWriteSize in *. nat_div_lia.
      * destruct (Hrest i c Hc) as [? Hfull]. split; [done|].
        cbn [length]. intros ?. apply Hfull. lia.
  - exists []. split_and!.
    + cbn. by rewrite set_posted_nil.
    + cbn. by rewrite drop_ge by lia.
    + cbn [length]. unfold kMaxWriteSize. nat_div_lia.
    + by intros i c Hc.
Qed.

Lemma decode_write_envelopes fd (chunks : list (list byte)) :
  Forall (λ c, 0 < length c ≤ kMaxWriteSize) chunks →
  mapM decode_write (write_envelope fd <$> chunks) = Some (pair fd <$> chunks).
Proof.
  induction 1 as [|c chunks Hc _ IH]; [done|].
  cbn [fmap list_fmap mapM]. rewrite IH.
  destruct (chunk_encodes c Hc) as (s & Hs & _).
  unfold decode_write, write_envelope. cbn [env_arguments].
  rewrite Hs. cbn [default]. unfold id.
  by rewrite (OnRead_decode_ntop _ _ _ Hs).
Qed.

Lemma chunked_Forall chunks :
  chunked chunks → Forall (λ c, 0 < length c ≤ kMaxWriteSize) chunks.
Proof.
  intros Hch. apply Forall_lookup. intros i c Hc. by apply (Hch i c).
Qed.

(** C2. [Write] returns after posting, in order, one [write] envelope
    [[fd, text]] per chunk of the payload: there are [ceil(N / C)] chunks
    for [N] bytes and the ceiling [C] of 24 KiB, every chunk but the last
    has exactly [C] bytes, and the decoded payloads, taken in the order
    of emission, concatenate to the payload. *)
Theorem Write_emits_ordered_chunks
    (fd : Z) (data : list byte) (st : SshPluginInstance) :
  kMaxWriteSize = 24 * 1024 ∧
  ∃ chunks,
    Write fd data st
    = Ret true (set_posted (posted st ++ (write_envelope fd <$> chunks)) st)
    ∧ length chunks = (length data + kMaxWriteSize - 1) / kMaxWriteSize
    ∧ chunked chunks
    ∧ mapM decode_write (write_envelope fd <$> chunks)
      = Some (pair fd <$> chunks)
    ∧ mjoin chunks = data.
Proof.
  split; [done|]. unfold Write.
  destruct (Write_loop_spec fd data (length data - 0) 0 st eq_refl)
    as (chunks & Hrun & Hjoin & Hcount & Hch); [lia|].
  exists chunks. split_and!; try done.
  - by rewrite Hcount, Nat.sub_0_r.
  - by apply decode_write_envelopes, chunked_Forall.
Qed.

(** A payload of no bytes posts nothing. *)
Example Write_empty fd st : Write fd [] st = Ret true st.
Proof. reflexivity. Qed.

Example Write_three_bytes :
  Write 5 [x4d; x61; x6e] (new_instance ∅)
  = Ret true (set_posted
                [Build_Envelope kWriteMethodId [JInt 5; JString "TWFu"]]
                (new_instance ∅)).
Proof. vm_compute. reflexivity. Qed.

End chunked_write.

(** ** The codec round trip *)

Section round_trip.
Import Codec.

(** C1. Whatever the byte sequence, the text [b64_ntop] writes for it
    into a large enough target is decoded by [OnRead] to exactly that
    sequence; the encoder used by [Write] and the decoder used by
    [OnRead] lose nothing. *)
Theorem codec_round_trip (b : list byte) (targsize : nat) :
  4 * ((length b + 2) / 3) < targsize →
  ∃ text, b64_ntop b targsize = Some text ∧ OnRead_decode text = Some b.
Proof.
  intros Hfit. destruct (b64_ntop_Some b targsize Hfit) as (text & Ht & _).
  exists text. split; [done|]. by apply (OnRead_decode_ntop b targsize).
Qed.

Lemma codec_round_trip_witness :
  length all_bytes = 256 ∧
  ∃ text, b64_ntop all_bytes 345 = Some text
          ∧ OnRead_decode text = Some all_bytes.
Proof.
  split; [reflexivity|].
  apply (codec_round_trip all_bytes 345). vm_compute. lia.
Defined.

Example codec_round_trip_empty :
  b64_ntop [] 1 = Some EmptyString ∧ OnRead_decode EmptyString = Some [].
Proof. split; reflexivity. Qed.

End round_trip.

(** ** Exit reporting *)

Section exit_reporting.
Import Value Plugin Run.

Ltac run :=
  unfold mbind, mret, M_bind, M_ret, modify, when, assert_, convert,
    find_stream, erase_stream, call_stream, call_file_system,
    CallOnMainThread, PrintLog, PrintLogImpl, SendExitCodeImpl, InvokeJS,
    setenv in *;
  cbn -[line] in *.

#[local] Instance hushed_preorder : PreOrder hushed.
Proof.
  split.
  - intros st. split_and!; try done. exists []. by rewrite app_nil_r.
  - intros st1 st2 st3 (Ht1 & Hq1 & new1 & Hp1 & He1)
      (Ht2 & Hq2 & new2 & Hp2 & He2).
    split_and!; [congruence..|]. exists (new1 ++ new2).
    rewrite Hp2, Hp1, <-app_assoc. split; [done|].
    unfold exit_envelopes in *. by rewrite filter_app, He1, He2.
Qed.

#[local] Instance calm_preorder : PreOrder calm.
Proof.
  split.
  - intros st _. split; [done|]. intros ?. split; [done|].
    exists []. by rewrite app_nil_r.
  - intros st1 st2 st3 H12 H23 Hrun.
    destruct (H12 Hrun) as [Ht1 H1].
    destruct H23 as [Ht2 H2]; [congruence|].
    split; [congruence|]. intros Hq.
    destruct (H1 Hq) as (Hq1 & new1 & Hp1 & He1).
    destruct (H2 Hq1) as (Hq2 & new2 & Hp2 & He2).
    split; [done|]. exists (new1 ++ new2).
    rewrite Hp2, Hp1, <-app_assoc. split; [done|].
    unfold exit_envelopes in *. by rewrite filter_app, He1, He2.
Qed.

Lemma hushed_calm st st' : hushed st st' → calm st st'.
Proof.
  intros (Ht & Hq & Hnew) _. split; [done|]. intros Hp.
  split; [|done]. unfold no_exit_pending. by rewrite Hq.
Qed.

Lemma preserves_bind {A B} (R : relation SshPluginInstance) `{!PreOrder R}
    (m : M A) (f : A → M B) :
  preserves R m → (∀ a, preserves R (f a)) → preserves R (m ≫= f).
Proof.
  intros Hm Hf st. specialize (Hm st). unfold mbind, M_bind.
  destruct (m st) as [a st1|st1]; [|done].
  etrans; [exact Hm|]. apply Hf.
Qed.

Lemma preserves_ret {A} (R : relation SshPluginInstance) `{!PreOrder R}
    (a : A) : preserves R (mret a).
Proof. by intros st. Qed.

Lemma preserves_weaken {A} (m : M A) : preserves hushed m → preserves calm m.
Proof. intros H st. apply hushed_calm, H. Qed.

(** Posting anything but an [exit] is hushed. *)
Lemma hushed_post st l :
  Forall (λ e, env_name e ≠ kExitMethodId) l →
  hushed st (set_posted (posted st ++ l) st).
Proof.
  intros Hl. split_and!; try done. exists l. split; [done|].
  unfold exit_envelopes. induction Hl as [|e l He _ IH]; [done|].
  by rewrite filter_cons_False.
Qed.

Lemma hushed_InvokeJS function args :
  function ≠ kExitMethodId → preserves hushed (InvokeJS function args).
Proof. intros Hf st. apply hushed_post. by constructor. Qed.

Lemma hushed_streams st m : hushed st (set_streams_ m st).
Proof. split_and!; try done. exists []. by rewrite app_nil_r. Qed.

Lemma hushed_stream_calls st l : hushed st (set_stream_calls l st).
Proof. split_and!; try done. exists []. by rewrite app_nil_r. Qed.

Lemma hushed_file_system_calls st l : hushed st (set_file_system_calls l st).
Proof. split_and!; try done. exists []. by rewrite app_nil_r. Qed.

(** Closing steps for the handlers: every branch ends in one of the
    states above. *)
Ltac hush :=
  intros st; run;
  repeat (case_match; run; simplify_eq/=);
  first
    [ reflexivity
    | apply hushed_streams
    | apply hushed_stream_calls
    | apply hushed_file_system_calls
    | by apply (hushed_post _ [_]); repeat constructor
    | (etrans; [apply hushed_stream_calls|]); apply hushed_streams ].

Lemma hushed_OnOpen args : preserves hushed (OnOpen args).
Proof. unfold OnOpen. hush. Qed.

Lemma hushed_OnRead args : preserves hushed (OnRead args).
Proof. unfold OnRead. hush. Qed.

Lemma hushed_OnWriteAcknowledge args :
  preserves hushed (OnWriteAcknowledge args).
Proof. unfold OnWriteAcknowledge. hush. Qed.

Lemma hushed_OnClose args : preserves hushed (OnClose args).
Proof. unfold OnClose. hush. Qed.

Lemma hushed_OnReadReady args : preserves hushed (OnReadReady args).
Proof. unfold OnReadReady. hush. Qed.

Lemma hushed_OnResize args : preserves hushed (OnResize args).
Proof. unfold OnResize. hush. Qed.

Lemma hushed_OnExitAcknowledge args :
  preserves hushed (OnExitAcknowledge args).
Proof. unfold OnExitAcknowledge. hush. Qed.

Lemma hushed_Read fd size : preserves hushed (Read fd size).
Proof. unfold Read. hush. Qed.

Lemma hushed_Close fd : preserves hushed (Close fd).
Proof. unfold Close. hush. Qed.

Lemma hushed_OpenFile fd name mode stream :
  preserves hushed (OpenFile fd name mode stream).
Proof.
  unfold OpenFile. intros st. destruct name as [n|]; run;
    repeat (case_match; run; simplify_eq/=);
    first [ reflexivity
          | apply hushed_streams
          | by apply (hushed_post _ [_]); repeat constructor
          | (etrans; [apply (hushed_post _ [_]); by repeat constructor|]);
            apply hushed_streams ].
Qed.

Lemma hushed_OpenSocket fd host port stream :
  preserves hushed (OpenSocket fd host port stream).
Proof.
  unfold OpenSocket. intros st. run;
    repeat (case_match; run; simplify_eq/=);
    first [ by apply (hushed_post _ [_]); repeat constructor
          | (etrans; [apply (hushed_post _ [_]); by repeat constructor|]);
            apply hushed_streams ].
Qed.

Lemma hushed_Write fd data : preserves hushed (Write fd data).
Proof.
  intros st. unfold Write.
  destruct (Write_loop_spec fd data (length data - 0) 0 st eq_refl)
    as (chunks & -> & _); [lia|].
  apply hushed_post. apply Forall_fmap, Forall_true. by intros c.
Qed.

(** While a session runs, [startSession] only logs. *)
Lemma calm_StartSession pc args : preserves calm (StartSession pc args).
Proof.
  intros st Hrun. unfold StartSession.
  rewrite (bool_decide_eq_false_2 _ Hrun), andb_false_r.
  apply hushed_calm; [|done]. by apply (hushed_post _ [_]); repeat constructor.
Qed.

Lemma calm_Invoke pc function args : preserves calm (Invoke pc function args).
Proof.
  unfold Invoke. repeat case_decide;
    auto using calm_StartSession, preserves_weaken, hushed_OnOpen,
      hushed_OnRead, hushed_OnWriteAcknowledge, hushed_OnClose,
      hushed_OnReadReady, hushed_OnResize, hushed_OnExitAcknowledge.
  by intros st.
Qed.

(** A queued diagnostic is not an exit report. *)
Lemma calm_PrintLog msg : preserves calm (PrintLog msg).
Proof.
  intros st _. split; [done|]. intros Hq. split.
  - apply Forall_app. split; [done|]. apply Forall_singleton. by intros ?.
  - exists []. by rewrite app_nil_r.
Qed.

(** The main thread posts the message of every queued callback, in
    order, and leaves the queue empty. *)
Lemma run_queue_spec q : ∀ st,
  foldr (λ c rest, run_main_thread_call c;; rest) (mret ()) q st
  = Ret () (set_posted (posted st ++ (envelope_of_call <$> q)) st).
Proof.
  induction q as [|c q IH]; intros st; cbn [foldr fmap list_fmap].
  - unfold mret, M_ret. by rewrite set_posted_nil.
  - unfold mbind, M_bind.
    assert (run_main_thread_call c st
            = Ret () (set_posted (posted st ++ [envelope_of_call c]) st))
      as -> by by destruct c.
    by rewrite IH, set_posted_app.
Qed.

Lemma run_main_thread_queue_spec st :
  run_main_thread_queue st
  = Ret () (set_posted
              (posted st ++ (envelope_of_call <$> main_thread_queue st))
              (set_main_thread_queue [] st)).
Proof. unfold run_main_thread_queue. by rewrite run_queue_spec. Qed.

Lemma exit_envelopes_calls q :
  Forall (λ c, ¬ is_exit_call c) q →
  exit_envelopes (envelope_of_call <$> q) = [].
Proof.
  unfold exit_envelopes. induction 1 as [|c q Hc _ IH]; [done|].
  cbn [fmap list_fmap]. rewrite filter_cons_False; [done|].
  by destruct c.
Qed.

Lemma calm_run_main_thread_queue : preserves calm run_main_thread_queue.
Proof.
  intros st _. rewrite run_main_thread_queue_spec. split; [done|].
  intros Hq. split; [by constructor|].
  eexists. split; [done|]. by apply exit_envelopes_calls.
Qed.

Lemma calm_run_event e : preserves calm (run_event e).
Proof.
  destruct e; cbn [run_event];
    auto using calm_Invoke, calm_PrintLog, calm_run_main_thread_queue;
    (apply preserves_bind; [apply _| |intros; exact (preserves_ret _ _)]);
    auto using preserves_weaken, hushed_OpenFile, hushed_OpenSocket,
      hushed_Write, hushed_Read, hushed_Close.
Qed.

Lemma calm_run_events evs : preserves calm (run_events evs).
Proof.
  induction evs as [|e evs IH]; cbn [run_events].
  - exact (preserves_ret _ _).
  - apply preserves_bind; [apply _|apply calm_run_event|done].
Qed.

Lemma calm_convert {A} (o : option A) : preserves calm (convert o).
Proof. intros st. by destruct o. Qed.

Lemma calm_push_arguments l : ∀ argv, preserves calm (push_arguments l argv).
Proof.
  induction l as [|v l IH]; intros argv; cbn [push_arguments].
  - exact (preserves_ret _ _).
  - destruct (isString v); [done|].
    apply preserves_bind; [apply _|apply calm_PrintLog|done].
Qed.

Lemma calm_SessionThread_argv DEBUG : preserves calm (SessionThread_argv DEBUG).
Proof.
  unfold SessionThread_argv.
  apply preserves_bind; [apply _|by intros st|intros sa].
  apply preserves_bind; [apply _| |intros argv1].
  { case_match; [apply calm_push_arguments|exact (preserves_ret _ _)]. }
  apply preserves_bind; [apply _| |intros argv2].
  { case_match; [|exact (preserves_ret _ _)].
    apply preserves_bind; [apply _|apply calm_convert|].
    intros. exact (preserves_ret _ _). }
  apply preserves_bind; [apply _| |intros argv3].
  { case_match; [|exact (preserves_ret _ _)].
    apply preserves_bind; [apply _|apply calm_convert|intros].
    apply preserves_bind; [apply _|apply calm_convert|intros].
    exact (preserves_ret _ _). }
  apply preserves_bind; [apply _| |intros sub].
  { case_match; [|exact (preserves_ret _ _)].
    apply preserves_bind; [apply _|apply calm_convert|intros].
    exact (preserves_ret _ _). }
  exact (preserves_ret _ _).
Qed.

Lemma returning_bind_then {A B} (R F : relation SshPluginInstance)
    `{!PreOrder R} (m : M A) (k : A → M B) :
  returning R m → (∀ a, returning (and_then R F) (k a)) →
  returning (and_then R F) (m ≫= k).
Proof.
  intros Hm Hk st. destruct (Hm st) as (a & st1 & Hrun & HR).
  destruct (Hk a st1) as (b & st' & Hrun' & st2 & HR' & HF).
  exists b, st'. unfold mbind, M_bind. rewrite Hrun. split; [done|].
  exists st2. split; [by etrans|done].
Qed.

Lemma returning_when (R : relation SshPluginInstance) `{!PreOrder R} c m :
  returning R m → returning R (when c m).
Proof. intros Hm st. destruct c; [apply Hm|]. by exists (), st. Qed.

Lemma hushed_environ st e : hushed st (set_environ e st).
Proof. split_and!; try done. exists []. by rewrite app_nil_r. Qed.

Lemma hushed_session_args_ st v : hushed st (set_session_args_ v st).
Proof. split_and!; try done. exists []. by rewrite app_nil_r. Qed.

Lemma returning_setenv name value : returning hushed (setenv name value).
Proof. intros st. eexists _, _. split; [done|]. apply hushed_environ. Qed.

Lemma returning_setenv_all env : returning hushed (setenv_all env).
Proof.
  unfold setenv_all. induction (map_to_list env) as [|[k v] l IH]; intros st.
  - by exists (), st.
  - cbn [foldr].
    destruct (returning_when hushed (isString v) (setenv k (asCString v))
                (returning_setenv _ _) st) as ([] & st1 & Hrun & H1).
    destruct (IH st1) as ([] & st2 & Hrun' & H2).
    exists (), st2. unfold mbind, M_bind. cbn [fst snd].
    rewrite Hrun. split; [done|]. by etrans.
Qed.

Lemma returning_terminal_size sa :
  returning hushed
    (when (isMember kTerminalWidthAttr sa
           && isNumeric (member kTerminalWidthAttr sa)
           && isMember kTerminalHeightAttr sa
           && isNumeric (member kTerminalHeightAttr sa))
       (w ← convert (asInt (member kTerminalWidthAttr sa));
        h ← convert (asInt (member kTerminalHeightAttr sa));
        call_file_system (FsSetTerminalSize w h))).
Proof.
  intros st.
  destruct (isMember kTerminalWidthAttr sa), (isMember kTerminalHeightAttr sa),
    (member kTerminalWidthAttr sa), (member kTerminalHeightAttr sa);
    cbn; eexists _, _; (split; [reflexivity|]);
    first [reflexivity | apply hushed_file_system_calls].
Qed.

(** An accepted [startSession] returns; before its last step it starts
    no thread, queues nothing and posts nothing but diagnostics. *)
Lemma StartSession_accepted pc cfg st :
  openssh_thread_ st = None →
  ∃ st', StartSession pc [JObject cfg] st = Ret () st'
         ∧ and_then hushed (thread_started pc) st st'.
Proof.
  intros Hidle. unfold StartSession. rewrite Hidle.
  change (bool_decide (length [JObject cfg] = 1)
          && isObject (at_index [JObject cfg] 0)
          && bool_decide (None = None (A:=pthread_t))) with true.
  cbv zeta. cbn match.
  set (sa := at_index [JObject cfg] 0).
  enough (returning (and_then hushed (thread_started pc))
            (modify (set_session_args_ sa);;
             when (isMember kTerminalWidthAttr sa
                   && isNumeric (member kTerminalWidthAttr sa)
                   && isMember kTerminalHeightAttr sa
                   && isNumeric (member kTerminalHeightAttr sa))
               (w ← convert (asInt (member kTerminalWidthAttr sa));
                h ← convert (asInt (member kTerminalHeightAttr sa));
                call_file_system (FsSetTerminalSize w h));;
             when (isMember kUseJsSocketAttr sa
                   && isBool (member kUseJsSocketAttr sa))
               (call_file_system
                  (FsUseJsSocket (asBool (member kUseJsSocketAttr sa))));;
             when (isMember kEnvironmentAttr sa
                   && isObject (member kEnvironmentAttr sa))
               (setenv_all (members (member kEnvironmentAttr sa)));;
             when (isMember kAuthAgentAppID sa
                   && isString (member kAuthAgentAppID sa))
               (setenv "SSH_AUTH_SOCK"
                  (asCString (member kAuthAgentAppID sa)));;
             match pc with
             | Some tid => modify (set_openssh_thread_ (Some tid))
             | None => SendExitCodeImpl (-1)
             end)) as Hret.
  { destruct (Hret st) as ([] & st' & Hrun & Hrel). by exists st'. }
  apply returning_bind_then; [apply _| |intros _].
  { intros s. eexists _, _. split; [done|]. apply hushed_session_args_. }
  apply returning_bind_then; [apply _|apply returning_terminal_size|intros _].
  apply returning_bind_then; [apply _| |intros _].
  { apply returning_when; [apply _|]. intros s. eexists _, _.
    split; [done|]. apply hushed_file_system_calls. }
  apply returning_bind_then; [apply _| |intros _].
  { apply returning_when; [apply _|]. apply returning_setenv_all. }
  apply returning_bind_then; [apply _| |intros _].
  { apply returning_when; [apply _|]. apply returning_setenv. }
  intros s.
  exists (), (match pc with
              | Some tid => set_openssh_thread_ (Some tid) s
              | None => set_posted (posted s ++ [exit_envelope (-1)]) s
              end).
  split; [by destruct pc|]. exists s. by split.
Qed.

Lemma bind_Ret {A B} (m : M A) (k : A → M B) st b st' :
  (m ≫= k) st = Ret b st' → ∃ a st1, m st = Ret a st1 ∧ k a st1 = Ret b st'.
Proof.
  unfold mbind, M_bind. destruct (m st) as [a st1|]; [|done]. by exists a, st1.
Qed.

Lemma exit_envelopes_app l1 l2 :
  exit_envelopes (l1 ++ l2) = exit_envelopes l1 ++ exit_envelopes l2.
Proof. unfold exit_envelopes. apply filter_app. Qed.

(** C7. A session started from the idle state produces exactly one
    [exit] envelope.  When the thread cannot be started, [startSession]
    itself returns after posting it with the code [-1], and the instance
    is idle again.  When the thread starts and its body runs to the end
    (whatever the host and the native side do meanwhile), the one
    envelope carries the status the native entry point returned, and the
    instance is idle again. *)
Theorem one_exit_envelope_per_session
    (DEBUG : bool) (cfg : gmap string Json) (evs : list event) (rc : Z)
    (st : SshPluginInstance) :
  openssh_thread_ st = None →
  no_exit_pending st →
  (∃ st', session DEBUG None [JObject cfg] evs rc st = Ret () st'
          ∧ openssh_thread_ st' = None
          ∧ ∃ new, posted st' = posted st ++ new
                   ∧ exit_envelopes new = [exit_envelope (-1)]) ∧
  (∀ tid st',
     session DEBUG (Some tid) [JObject cfg] evs rc st = Ret () st' →
     openssh_thread_ st' = None
     ∧ ∃ new, posted st' = posted st ++ new
              ∧ exit_envelopes new = [exit_envelope rc]).
Proof.
  intros Hidle Hq. split.
  - destruct (StartSession_accepted None cfg st Hidle)
      as (st' & Hrun & st1 & (Ht & _ & new & Hnew & Hex) & ->).
    exists (set_posted (posted st1 ++ [exit_envelope (-1)]) st1).
    split_and!.
    + unfold session, mbind, M_bind. rewrite Hrun.
      by rewrite andb_false_r.
    + cbn. congruence.
    + exists (new ++ [exit_envelope (-1)]). cbn [posted set_posted].
      rewrite Hnew, <-app_assoc. split; [done|].
      by rewrite exit_envelopes_app, Hex.
  - intros tid st' Hsession.
    destruct (StartSession_accepted (Some tid) cfg st Hidle)
      as (st2 & Hrun & st1 & (Ht & Hq1 & new & Hnew & Hex) & ->).
    unfold session in Hsession.
    apply bind_Ret in Hsession as ([] & st2 & Hrun' & Hbody).
    rewrite Hrun in Hrun'. injection Hrun' as <-.
    assert (accepted [JObject cfg] st = true) as Hacc
      by (unfold accepted; by rewrite Hidle).
    rewrite Hacc in Hbody. cbn [andb when] in Hbody.
    change (bool_decide (is_Some (Some tid))) with true in Hbody.
    cbn match in Hbody.
    apply bind_Ret in Hbody as ([] & st6 & Hthread & Hqueue).
    unfold SessionThreadImpl in Hthread.
    apply bind_Ret in Hthread as ([] & st3 & Hfs & Hthread).
    apply bind_Ret in Hthread as (inv & st4 & Hargv & Hthread).
    apply bind_Ret in Hthread as (rc' & st5 & Hmain & Hexit).
    unfold ssh_main_run in Hmain.
    apply bind_Ret in Hmain as ([] & st5' & Hevs & Hret).
    injection Hret as <- <-. injection Hfs as <-.
    set (st3 := set_file_system_calls _ _) in *.
    assert (calm st3 st5') as Hcalm.
    { etrans.
      - pose proof (calm_SessionThread_argv DEBUG st3) as H.
        rewrite Hargv in H. exact H.
      - pose proof (calm_run_events evs st4) as H.
        rewrite Hevs in H. exact H. }
    destruct Hcalm as [Ht5 H5]; [done|].
    destruct H5 as (Hq5 & new5 & Hnew5 & Hex5).
    { unfold no_exit_pending. cbn. by rewrite Hq1. }
    injection Hexit as <-.
    rewrite run_main_thread_queue_spec in Hqueue. injection Hqueue as <-.
    split; [done|].
    exists (new ++ new5
              ++ (envelope_of_call <$> main_thread_queue st5')
              ++ [exit_envelope rc]).
    split.
    + cbn. rewrite Hnew5. cbn. rewrite Hnew, fmap_app, <-!app_assoc. done.
    + rewrite !exit_envelopes_app, Hex, Hex5, exit_envelopes_calls by done.
      done.
Qed.

Lemma one_exit_envelope_per_session_witness :
  (∃ st', session false None [JObject example_config] example_events 255
            (new_instance ∅) = Ret () st'
          ∧ openssh_thread_ st' = None
          ∧ ∃ new, posted st' = posted (new_instance ∅) ++ new
                   ∧ exit_envelopes new = [exit_envelope (-1)]) ∧
  (let st' := final_state
                (session false (Some 5%positive) [JObject example_config]
                   example_events 255 (new_instance ∅)) in
   openssh_thread_ st' = None
   ∧ ∃ new, posted st' = posted (new_instance ∅) ++ new
            ∧ exit_envelopes new = [exit_envelope 255]).
Proof.
  destruct (one_exit_envelope_per_session false example_config example_events
              255 (new_instance ∅)) as [Hfail Hrun].
  - reflexivity.
  - constructor.
  - split; [exact Hfail|]. apply (Hrun 5%positive). by vm_compute.
Defined.

(** The example session does run to its end, and posts these messages. *)
Example example_session_runs :
  ∃ st', session false (Some 5%positive) [JObject example_config]
           example_events 255 (new_instance ∅) = Ret () st'
         ∧ env_name <$> posted st'
           = [kOpenSocketMethodId; kWriteMethodId; kPrintLogMethodId;
              kPrintLogMethodId; kExitMethodId]
         ∧ exit_envelopes (posted st') = [exit_envelope 255].
Proof. eexists. split_and!; vm_compute; reflexivity. Qed.

End exit_reporting.

(** ** What host messages do to the registry *)

Section registry_frame.
Import Value Plugin.

Ltac run :=
  unfold mbind, mret, M_bind, M_ret, modify, when, assert_, convert,
    find_stream, erase_stream, call_stream, call_file_system,
    CallOnMainThread, PrintLog, PrintLogImpl, SendExitCodeImpl, InvokeJS,
    setenv in *;
  cbn -[line] in *.

#[local] Instance same_streams_preorder : PreOrder same_streams.
Proof.
  split.
  - by intros st.
  - intros st1 st2 st3 [H1 H1'] [H2 H2']. split; congruence.
Qed.

Lemma same_streams_touches fdo st st' :
  same_streams st st' → touches_only fdo st st'.
Proof.
  intros [Hs Hc]. split_and!.
  - intros fd _. by rewrite Hs.
  - intros fd h. by rewrite Hs.
  - by left.
Qed.

Lemma touches_call fdo st fd h c :
  fdo = Some fd → streams_ st !! fd = Some h →
  touches_only fdo st (set_stream_calls (stream_calls st ++ [(h, c)]) st).
Proof.
  intros Hfd Hh. split_and!; [done..|]. right. by exists fd, h, c.
Qed.

Lemma touches_call_erase fdo st fd h c :
  fdo = Some fd → streams_ st !! fd = Some h →
  touches_only fdo st
    (set_streams_ (delete fd (streams_ st))
       (set_stream_calls (stream_calls st ++ [(h, c)]) st)).
Proof.
  intros Hfd Hh. split_and!.
  - intros fd' Hne. cbn. apply lookup_delete_ne. congruence.
  - intros fd' h'. cbn. rewrite lookup_delete. by case_decide.
  - right. by exists fd, h, c.
Qed.

(** Closing steps: every branch of a handler ends in one of these
    states. *)
Ltac frame :=
  intros st; run;
  repeat (case_match; run; simplify_eq/=);
  first
    [ by apply same_streams_touches
    | by eapply touches_call
    | by eapply touches_call_erase ].

Lemma touches_OnOpen args :
  preserves (touches_only (asInt (at_index args 0))) (OnOpen args).
Proof. unfold OnOpen. frame. Qed.

Lemma touches_OnRead args :
  preserves (touches_only (asInt (at_index args 0))) (OnRead args).
Proof. unfold OnRead. frame. Qed.

Lemma touches_OnWriteAcknowledge args :
  preserves (touches_only (asInt (at_index args 0))) (OnWriteAcknowledge args).
Proof. unfold OnWriteAcknowledge. frame. Qed.

Lemma touches_OnClose args :
  preserves (touches_only (asInt (at_index args 0))) (OnClose args).
Proof. unfold OnClose. frame. Qed.

Lemma touches_OnReadReady args :
  preserves (touches_only (asInt (at_index args 0))) (OnReadReady args).
Proof. unfold OnReadReady. frame. Qed.

Lemma touches_OnResize args :
  preserves (touches_only (asInt (at_index args 0))) (OnResize args).
Proof. unfold OnResize. frame. Qed.

Lemma touches_OnExitAcknowledge args :
  preserves (touches_only (asInt (at_index args 0))) (OnExitAcknowledge args).
Proof. unfold OnExitAcknowledge. frame. Qed.

Lemma same_streams_modify f :
  (∀ st, same_streams st (f st)) → preserves same_streams (modify f).
Proof. intros Hf st. apply Hf. Qed.

Lemma same_streams_when c m :
  preserves same_streams m → preserves same_streams (when c m).
Proof. intros Hm. by destruct c. Qed.

Lemma same_streams_convert {A} (o : option A) :
  preserves same_streams (convert o).
Proof. intros st. by destruct o. Qed.

Lemma same_streams_setenv name value : preserves same_streams (setenv name value).
Proof. by intros st. Qed.

Lemma same_streams_setenv_all env : preserves same_streams (setenv_all env).
Proof.
  unfold setenv_all. induction (map_to_list env) as [|[k v] l IH].
  - by intros st.
  - cbn [foldr]. apply preserves_bind; [apply _| |done].
    apply same_streams_when, same_streams_setenv.
Qed.

Lemma same_streams_StartSession pc args :
  preserves same_streams (StartSession pc args).
Proof.
  intros st. unfold StartSession. destruct (_ && _ && _); [|done].
  cbv zeta.
  match goal with
  | |- same_streams ?s (final_state (?m ?s)) =>
      revert s; change (preserves same_streams m)
  end.
  apply preserves_bind; [apply _|by apply same_streams_modify|intros _].
  apply preserves_bind; [apply _| |intros _].
  { apply same_streams_when.
    apply preserves_bind; [apply _|apply same_streams_convert|intros w].
    apply preserves_bind; [apply _|apply same_streams_convert|intros h].
    by apply same_streams_modify. }
  apply preserves_bind; [apply _| |intros _].
  { apply same_streams_when. by apply same_streams_modify. }
  apply preserves_bind; [apply _| |intros _].
  { apply same_streams_when, same_streams_setenv_all. }
  apply preserves_bind; [apply _| |intros _].
  { apply same_streams_when, same_streams_setenv. }
  destruct pc; by apply same_streams_modify.
Qed.

Lemma touches_Invoke pc function args :
  preserves (touches_only (asInt (at_index args 0))) (Invoke pc function args).
Proof.
  unfold Invoke. repeat case_decide;
    auto using touches_OnOpen, touches_OnRead, touches_OnWriteAcknowledge,
      touches_OnClose, touches_OnReadReady, touches_OnResize,
      touches_OnExitAcknowledge.
  - intros st. apply same_streams_touches, same_streams_StartSession.
  - intros st. by apply same_streams_touches.
Qed.

(** X2. No message from the host registers a descriptor or gives one
    another handle, and a message leaves every descriptor other than the
    one its first argument names as it is. *)
Theorem host_message_never_registers
    (pc : option pthread_t) (function : string) (args : list Json)
    (st : SshPluginInstance) :
  let st' := final_state (Invoke pc function args st) in
  (∀ fd h, streams_ st' !! fd = Some h → streams_ st !! fd = Some h) ∧
  (∀ fd, asInt (at_index args 0) ≠ Some fd →
         streams_ st' !! fd = streams_ st !! fd).
Proof.
  destruct (touches_Invoke pc function args st) as (Hother & Hsub & _).
  by split.
Qed.

Lemma host_message_never_registers_witness :
  streams_ (final_state (Invoke None kOnCloseMethodId [JInt 4] registry_example))
    !! 3%Z = Some 7%positive
  ∧ streams_ registry_example !! 3%Z = Some 7%positive.
Proof.
  destruct (host_message_never_registers None kOnCloseMethodId [JInt 4]
              registry_example) as [Hsub Hother].
  assert (streams_ (final_state
                      (Invoke None kOnCloseMethodId [JInt 4] registry_example))
            !! 3%Z = Some 7%positive) as H3.
  { rewrite Hother; [reflexivity|discriminate]. }
  split; [exact H3|]. apply Hsub. exact H3.
Defined.

(** X3. A message from the host leads to at most one call on a stream
    handle, and that call goes to the handle registered for the descriptor
    the message's first argument names. *)
Theorem host_message_reaches_own_handle
    (pc : option pthread_t) (function : string) (args : list Json)
    (st : SshPluginInstance) :
  let st' := final_state (Invoke pc function args st) in
  stream_calls st' = stream_calls st ∨
  ∃ fd h c, asInt (at_index args 0) = Some fd
            ∧ streams_ st !! fd = Some h
            ∧ stream_calls st' = stream_calls st ++ [(h, c)].
Proof. by destruct (touches_Invoke pc function args st) as (_ & _ & Hcall). Qed.

(** X4. On a descriptor that is not registered, [OpenFile] and
    [OpenSocket] return true, bind exactly that descriptor to the given
    stream, and post one request; [OpenFile] without a name posts
    none. *)
Theorem fresh_descriptor_registered
    (st : SshPluginInstance) (fd : Z) (stream : InputInterface)
    (name : option string) (mode : Z) (host : string) (port : Z) :
  streams_ st !! fd = None →
  (∃ st', OpenFile fd name mode stream st = Ret true st'
          ∧ streams_ st' = <[fd := stream]> (streams_ st)
          ∧ posted st'
            = posted st
              ++ match name with
                 | Some n => [Build_Envelope kOpenFileMethodId
                                [JInt fd; JString n; JInt mode]]
                 | None => []
                 end) ∧
  (∃ st', OpenSocket fd host port stream st = Ret true st'
          ∧ streams_ st' = <[fd := stream]> (streams_ st)
          ∧ posted st'
            = posted st
              ++ [Build_Envelope kOpenSocketMethodId
                    [JInt fd; JString host; JInt port]]).
Proof.
  intros Hfd. split.
  - unfold OpenFile. destruct name as [n|]; run; rewrite Hfd; run;
      eexists; split_and!; try done. by rewrite app_nil_r.
  - unfold OpenSocket. run. rewrite Hfd. run. by eexists.
Qed.

Lemma fresh_descriptor_registered_witness :
  (∃ st', OpenFile 4 None 0 9%positive registry_example = Ret true st'
          ∧ streams_ st' = <[4%Z := 9%positive]> (streams_ registry_example)
          ∧ posted st' = posted registry_example ++ []) ∧
  (∃ st', OpenSocket 4 "example.org" 22 9%positive registry_example
          = Ret true st'
          ∧ streams_ st' = <[4%Z := 9%positive]> (streams_ registry_example)
          ∧ posted st'
            = posted registry_example
              ++ [Build_Envelope kOpenSocketMethodId
                    [JInt 4; JString "example.org"; JInt 22]]).
Proof.
  apply (fresh_descriptor_registered registry_example 4 9%positive None 0).
  reflexivity.
Defined.

(** X5. The life of a descriptor: after [OpenSocket] on a descriptor that
    is not registered, the native side's [Close] only posts its request
    and leaves the descriptor registered; the host's [onClose] then tells
    the stream and removes the descriptor, which leaves the registry as it
    was at the start.  A failed open result, instead of the close, leaves
    the registry as it was at the start too. *)
Theorem descriptor_life_cycle
    (pc : option pthread_t) (st : SshPluginInstance) (fd : Z)
    (stream : InputInterface) (host : string) (port : Z) (is_atty : bool) :
  streams_ st !! fd = None →
  (∃ st1 st2 st3,
     OpenSocket fd host port stream st = Ret true st1
     ∧ Close fd st1 = Ret true st2
     ∧ streams_ st2 !! fd = Some stream
     ∧ Invoke pc kOnCloseMethodId [JInt fd] st2 = Ret () st3
     ∧ streams_ st3 = streams_ st
     ∧ stream_calls st3 = stream_calls st ++ [(stream, StreamOnClose)]
     ∧ posted st3
       = posted st
         ++ [Build_Envelope kOpenSocketMethodId
               [JInt fd; JString host; JInt port];
             Build_Envelope kCloseMethodId [JInt fd]]) ∧
  (∃ st1 st2,
     OpenSocket fd host port stream st = Ret true st1
     ∧ Invoke pc kOnOpenSocketMethodId [JInt fd; JBool false; JBool is_atty] st1
       = Ret () st2
     ∧ streams_ st2 = streams_ st
     ∧ stream_calls st2
       = stream_calls st ++ [(stream, StreamOnOpen false is_atty)]).
Proof.
  intros Hfd. split.
  - eexists _, _, _. split_and!.
    + unfold OpenSocket. run. rewrite Hfd. run. reflexivity.
    + reflexivity.
    + cbn. apply lookup_insert_eq.
    + change (Invoke pc kOnCloseMethodId) with OnClose. unfold OnClose. run.
      rewrite lookup_insert_eq. run. reflexivity.
    + cbn. rewrite delete_insert_eq. by apply delete_id.
    + done.
    + cbn. by rewrite <-app_assoc.
  - eexists _, _. split_and!.
    + unfold OpenSocket. run. rewrite Hfd. run. reflexivity.
    + change (Invoke pc kOnOpenSocketMethodId) with OnOpen. unfold OnOpen. run.
      rewrite lookup_insert_eq. run. reflexivity.
    + cbn. rewrite delete_insert_eq. by apply delete_id.
    + done.
Qed.

Lemma descriptor_life_cycle_witness :
  (∃ st1 st2 st3,
     OpenSocket 4 "example.org" 22 9%positive registry_example = Ret true st1
     ∧ Close 4 st1 = Ret true st2
     ∧ streams_ st2 !! 4%Z = Some 9%positive
     ∧ Invoke None kOnCloseMethodId [JInt 4] st2 = Ret () st3
     ∧ streams_ st3 = streams_ registry_example
     ∧ stream_calls st3
       = stream_calls registry_example ++ [(9%positive, StreamOnClose)]
     ∧ posted st3
       = posted registry_example
         ++ [Build_Envelope kOpenSocketMethodId
               [JInt 4; JString "example.org"; JInt 22];
             Build_Envelope kCloseMethodId [JInt 4]]) ∧
  (∃ st1 st2,
     OpenSocket 4 "example.org" 22 9%positive registry_example = Ret true st1
     ∧ Invoke None kOnOpenSocketMethodId [JInt 4; JBool false; JBool true] st1
       = Ret () st2
     ∧ streams_ st2 = streams_ registry_example
     ∧ stream_calls st2
       = stream_calls registry_example ++ [(9%positive, StreamOnOpen false true)]).
Proof.
  apply (descriptor_life_cycle None registry_example 4 9%positive
           "example.org" 22 true).
  reflexivity.
Defined.

(** X7. For a registered descriptor, [onRead] with a text the decoder
    refuses ends at the assertion on the decoder's result: nothing is
    handed to the stream, nothing is posted, and the state is the one
    before the message. *)
Theorem OnRead_undecodable_text_asserts
    (pc : option pthread_t) (st : SshPluginInstance) (fd : Z)
    (h : InputInterface) (text : string) (extra : list Json) :
  streams_ st !! fd = Some h →
  Codec.OnRead_decode text = None →
  Invoke pc kOnReadMethodId (JInt fd :: JString text :: extra) st = Abort st.
Proof.
  intros Hfd Htext. change (Invoke pc kOnReadMethodId) with OnRead.
  unfold OnRead. run. rewrite Hfd. run. by rewrite Htext.
Qed.

Lemma OnRead_undecodable_text_asserts_witness :
  Invoke None kOnReadMethodId [JInt 3; JString "TQ="] registry_example
  = Abort registry_example.
Proof.
  apply (OnRead_undecodable_text_asserts None registry_example 3 7%positive
           "TQ=" []); reflexivity.
Defined.

(** X14. An open result, under either name, for a descriptor that is not
    registered only prints the diagnostic for an unknown descriptor. *)
Theorem open_result_for_unknown_fd
    (pc : option pthread_t) (function : string) (st : SshPluginInstance)
    (fd : Z) (success is_atty : bool) (extra : list Json) :
  function = kOnOpenFileMethodId ∨ function = kOnOpenSocketMethodId →
  streams_ st !! fd = None →
  Invoke pc function (JInt fd :: JBool success :: JBool is_atty :: extra) st
  = Ret () (logged (line "onOpen: for unknown file descriptor") st).
Proof.
  intros Hf Hfd.
  assert (∀ args, Invoke pc function args st = OnOpen args st) as ->.
  { intros args. unfold Invoke. by destruct Hf as [-> | ->]. }
  unfold OnOpen. run. by rewrite Hfd.
Qed.

Lemma open_result_for_unknown_fd_witness :
  Invoke None kOnOpenSocketMethodId [JInt 4; JBool true; JBool false]
    registry_example
  = Ret () (logged (line "onOpen: for unknown file descriptor")
              registry_example).
Proof.
  apply (open_result_for_unknown_fd None kOnOpenSocketMethodId
           registry_example 4 true false []).
  - right. reflexivity.
  - reflexivity.
Defined.

End registry_frame.

(** ** Writes: the chunks are determined by the payload *)

Section write_composition.
Import Value Plugin Run.

Lemma chunked_cons_inv c l :
  chunked (c :: l) →
  0 < length c ≤ kMaxWriteSize ∧ (l ≠ [] → length c = kMaxWriteSize) ∧ chunked l.
Proof.
  intros Hch. destruct (Hch 0 c eq_refl) as [Hc Hfull]. split_and!; [lia..| |].
  - intros Hl. apply Hfull. destruct l; [done|]. cbn. lia.
  - intros i c' Hc'. destruct (Hch (S i) c' Hc') as [? Hfull']. split; [done|].
    intros ?. apply Hfull'. cbn. lia.
Qed.

Lemma chunked_join_length l :
  chunked l → l ≠ [] → 0 < length (mjoin l).
Proof.
  destruct l as [|c l]; [done|]. intros Hch _.
  apply chunked_cons_inv in Hch as [Hc _].
  change (mjoin (c :: l)) with (c ++ mjoin l). rewrite length_app. lia.
Qed.

(** A payload has one division into chunks only. *)
Lemma chunked_unique l1 : ∀ l2,
  chunked l1 → chunked l2 → mjoin l1 = mjoin l2 → l1 = l2.
Proof.
  induction l1 as [|c1 r1 IH]; intros [|c2 r2] H1 H2 Hj; [done| | |].
  - pose proof (chunked_join_length _ H2 ltac:(done)) as Hpos.
    rewrite <-Hj in Hpos. cbn in Hpos. lia.
  - pose proof (chunked_join_length _ H1 ltac:(done)) as Hpos.
    rewrite Hj in Hpos. cbn in Hpos. lia.
  - pose proof (chunked_cons_inv _ _ H1) as (Hc1 & Hf1 & Hr1).
    pose proof (chunked_cons_inv _ _ H2) as (Hc2 & Hf2 & Hr2).
    change (c1 ++ mjoin r1 = c2 ++ mjoin r2) in Hj.
    assert (length c1 = length c2) as Hlen.
    { pose proof (f_equal length Hj) as Hl. rewrite !length_app in Hl.
      destruct r1 as [|c1' r1'], r2 as [|c2' r2'].
      - cbn in Hl. lia.
      - pose proof (chunked_join_length _ Hr2 ltac:(done)).
        specialize (Hf2 ltac:(done)). cbn [mjoin list_join length] in Hl. lia.
      - pose proof (chunked_join_length _ Hr1 ltac:(done)).
        specialize (Hf1 ltac:(done)). cbn [mjoin list_join length] in Hl. lia.
      - rewrite Hf1, Hf2; done. }
    apply app_inj_1 in Hj as [-> Hj]; [|done].
    f_equal. by apply IH.
Qed.

Lemma join_length_le (l : list (list byte)) :
  Forall (λ c, length c ≤ kMaxWriteSize) l →
  length (mjoin l) ≤ length l * kMaxWriteSize.
Proof.
  induction 1 as [|c l Hc _ IH]; [done|].
  change (mjoin (c :: l)) with (c ++ mjoin l).
  rewrite length_app. cbn [length]. lia.
Qed.

(** Chunks that fill whole multiples of the ceiling are all full. *)
Lemma chunks_all_full (l : list (list byte)) :
  Forall (λ c, length c ≤ kMaxWriteSize) l →
  length (mjoin l) = length l * kMaxWriteSize →
  Forall (λ c, length c = kMaxWriteSize) l.
Proof.
  induction 1 as [|c l Hc Hl IH]; [done|].
  change (mjoin (c :: l)) with (c ++ mjoin l).
  rewrite length_app. cbn [length]. intros Hsum.
  pose proof (join_length_le l Hl).
  constructor; [lia|]. apply IH. lia.
Qed.

Lemma chunked_app l1 l2 :
  Forall (λ c, length c = kMaxWriteSize) l1 → chunked l2 → chunked (l1 ++ l2).
Proof.
  intros Hfull Hch i c Hc. apply lookup_app_Some in Hc as [Hc | [Hi Hc]].
  - pose proof (Forall_lookup_1 _ _ _ _ Hfull Hc) as Hlen. cbn in Hlen.
    rewrite Hlen. unfold kMaxWriteSize. lia.
  - destruct (Hch _ _ Hc) as [? Hfull']. split; [done|].
    rewrite length_app. intros ?. apply Hfull'. lia.
Qed.

(** What [Write] posts is a function of the payload alone. *)
Lemma Write_posts fd data st :
  ∃ chunks,
    Write fd data st
    = Ret true (set_posted (posted st ++ (write_envelope fd <$> chunks)) st)
    ∧ mjoin chunks = data
    ∧ length chunks = (length data + kMaxWriteSize - 1) / kMaxWriteSize
    ∧ chunked chunks.
Proof.
  unfold Write.
  destruct (Write_loop_spec fd data (length data - 0) 0 st eq_refl)
    as (chunks & Hrun & Hjoin & Hcount & Hch); [lia|].
  exists chunks. split_and!; try done. by rewrite Hcount, Nat.sub_0_r.
Qed.

(** X8. A payload whose first part is a whole number of full chunks is
    written as the two parts one after the other: [Write] on the
    concatenation posts the same envelopes as [Write] on the first part
    followed by [Write] on the second. *)
Theorem Write_split_at_ceiling
    (fd : Z) (a b : list byte) (k : nat) (st : SshPluginInstance) :
  length a = k * kMaxWriteSize →
  Write fd (a ++ b) st = (Write fd a;; Write fd b) st.
Proof.
  intros Ha.
  destruct (Write_posts fd a st) as (ca & Hwa & Hja & Hna & Hca).
  destruct (Write_posts fd (a ++ b) st) as (cab & Hwab & Hjab & _ & Hcab).
  unfold mbind, M_bind. rewrite Hwa, Hwab.
  destruct (Write_posts fd b
              (set_posted (posted st ++ (write_envelope fd <$> ca)) st))
    as (cb & Hwb & Hjb & _ & Hcb).
  rewrite Hwb, set_posted_app, <-fmap_app.
  assert (Forall (λ c, length c = kMaxWriteSize) ca) as Hfull.
  { apply chunks_all_full.
    - eapply Forall_impl; [by apply chunked_Forall|]. cbn. lia.
    - rewrite Hja, Hna, Ha.
      assert (0 < kMaxWriteSize) as HC by (unfold kMaxWriteSize; lia).
      replace (k * kMaxWriteSize + kMaxWriteSize - 1)
        with (k * kMaxWriteSize + (kMaxWriteSize - 1)) by lia.
      rewrite Nat.div_add_l by lia.
      rewrite Nat.div_small by lia. lia. }
  assert (cab = ca ++ cb) as ->; [|done].
  apply chunked_unique; [done|by apply chunked_app|].
  by rewrite Hjab, join_app, Hja, Hjb.
Qed.

Lemma Write_split_at_ceiling_witness :
  Write 5 (replicate kMaxWriteSize x00 ++ [x4d; x61; x6e]) (new_instance ∅)
  = (Write 5 (replicate kMaxWriteSize x00);; Write 5 [x4d; x61; x6e])
      (new_instance ∅).
Proof.
  apply (Write_split_at_ceiling 5 (replicate kMaxWriteSize x00)
           [x4d; x61; x6e] 1 (new_instance ∅)).
  rewrite length_replicate. lia.
Defined.

Lemma set_stream_calls_nil st :
  set_stream_calls (stream_calls st ++ []) st = st.
Proof. destruct st. unfold set_stream_calls. cbn. by rewrite app_nil_r. Qed.

Lemma set_stream_calls_app st l1 l2 :
  set_stream_calls
    (stream_calls (set_stream_calls (stream_calls st ++ l1) st) ++ l2)
    (set_stream_calls (stream_calls st ++ l1) st)
  = set_stream_calls (stream_calls st ++ l1 ++ l2) st.
Proof. unfold set_stream_calls. cbn. by rewrite app_assoc. Qed.

(** The host handing a chunk's envelope back as [onRead] gives the chunk
    to the stream. *)
Lemma OnRead_write_envelope fd c st h :
  0 < length c ≤ kMaxWriteSize →
  streams_ st !! fd = Some h →
  OnRead (env_arguments (write_envelope fd c)) st
  = Ret () (set_stream_calls (stream_calls st ++ [(h, StreamOnRead c)]) st).
Proof.
  intros Hc Hfd. destruct (chunk_encodes c Hc) as (s & Hs & _).
  unfold write_envelope. cbn [env_arguments]. rewrite Hs. cbn [default].
  unfold OnRead, mbind, M_bind, convert, find_stream, call_stream, modify.
  cbn. rewrite Hfd. by rewrite (OnRead_decode_ntop _ _ _ Hs).
Qed.

Lemma read_back_chunks pc fd h chunks : ∀ st,
  Forall (λ c, 0 < length c ≤ kMaxWriteSize) chunks →
  streams_ st !! fd = Some h →
  run_events
    ((λ e, HostMessage pc kOnReadMethodId (env_arguments e))
       <$> (write_envelope fd <$> chunks)) st
  = Ret () (set_stream_calls
              (stream_calls st ++ ((λ c, (h, StreamOnRead c)) <$> chunks)) st).
Proof.
  induction chunks as [|c chunks IH]; intros st Hch Hfd.
  - cbn. by rewrite set_stream_calls_nil.
  - apply Forall_cons in Hch as [Hc Hch].
    cbn [fmap list_fmap run_events run_event].
    change (Invoke pc kOnReadMethodId) with OnRead.
    unfold mbind at 1, M_bind at 1.
    rewrite (OnRead_write_envelope fd c st h) by done.
    rewrite IH by done. by rewrite set_stream_calls_app.
Qed.

(** X6. What [Write] posts for a descriptor, handed back by the host as
    [onRead] messages in the same order, reaches the stream registered for
    that descriptor as the same bytes: the data of the calls, joined in
    order, is the payload. *)
Theorem written_payload_read_back
    (pc : option pthread_t) (fd : Z) (data : list byte)
    (st st' : SshPluginInstance) (h : InputInterface) :
  streams_ st' !! fd = Some h →
  ∃ envelopes chunks,
    Write fd data st = Ret true (set_posted (posted st ++ envelopes) st)
    ∧ run_events
        ((λ e, HostMessage pc kOnReadMethodId (env_arguments e)) <$> envelopes)
        st'
      = Ret () (set_stream_calls
                  (stream_calls st' ++ ((λ c, (h, StreamOnRead c)) <$> chunks))
                  st')
    ∧ mjoin chunks = data.
Proof.
  intros Hfd. destruct (Write_posts fd data st) as (chunks & Hw & Hj & _ & Hch).
  exists (write_envelope fd <$> chunks), chunks. split_and!; [done| |done].
  apply read_back_chunks; [|done]. by apply chunked_Forall.
Qed.

Lemma written_payload_read_back_witness :
  ∃ envelopes chunks,
    Write 3 [x4d; x61; x6e; x21] (new_instance ∅)
    = Ret true (set_posted (posted (new_instance ∅) ++ envelopes)
                  (new_instance ∅))
    ∧ run_events
        ((λ e, HostMessage None kOnReadMethodId (env_arguments e))
           <$> envelopes) registry_example
      = Ret () (set_stream_calls
                  (stream_calls registry_example
                     ++ ((λ c, (7%positive, StreamOnRead c)) <$> chunks))
                  registry_example)
    ∧ mjoin chunks = [x4d; x61; x6e; x21].
Proof.
  apply (written_payload_read_back None 3 [x4d; x61; x6e; x21]
           (new_instance ∅) registry_example 7%positive).
  reflexivity.
Defined.

End write_composition.

(** ** What an accepted session start sets up *)

Section session_setup.
Import Value Plugin.

Lemma bind_run {A B} (m : M A) (k : A → M B) st a st1 :
  m st = Ret a st1 → (m ≫= k) st = k a st1.
Proof. intros Hm. unfold mbind, M_bind. by rewrite Hm. Qed.

Lemma set_file_system_calls_nil st :
  set_file_system_calls (file_system_calls st ++ []) st = st.
Proof. destruct st. unfold set_file_system_calls. cbn. by rewrite app_nil_r. Qed.

Lemma set_environ_id st : set_environ (environ st) st = st.
Proof. by destruct st. Qed.

Lemma terminal_size_step cfg st :
  when (isMember kTerminalWidthAttr (JObject cfg)
        && isNumeric (member kTerminalWidthAttr (JObject cfg))
        && isMember kTerminalHeightAttr (JObject cfg)
        && isNumeric (member kTerminalHeightAttr (JObject cfg)))
    (w ← convert (asInt (member kTerminalWidthAttr (JObject cfg)));
     h ← convert (asInt (member kTerminalHeightAttr (JObject cfg)));
     call_file_system (FsSetTerminalSize w h)) st
  = Ret () (set_file_system_calls
              (file_system_calls st ++ terminal_size_calls cfg) st).
Proof.
  unfold isMember, member, terminal_size_calls.
  destruct (cfg !! kTerminalWidthAttr) as [[]|],
    (cfg !! kTerminalHeightAttr) as [[]|]; cbn;
    by rewrite ?set_file_system_calls_nil.
Qed.

Lemma js_socket_step cfg st :
  when (isMember kUseJsSocketAttr (JObject cfg)
        && isBool (member kUseJsSocketAttr (JObject cfg)))
    (call_file_system
       (FsUseJsSocket (asBool (member kUseJsSocketAttr (JObject cfg))))) st
  = Ret () (set_file_system_calls
              (file_system_calls st ++ js_socket_calls cfg) st).
Proof.
  unfold isMember, member, js_socket_calls.
  destruct (cfg !! kUseJsSocketAttr) as [[]|]; cbn;
    by rewrite ?set_file_system_calls_nil.
Qed.

Lemma setenv_all_run l : ∀ st,
  foldr (λ kv rest, when (isString kv.2) (setenv kv.1 (asCString kv.2));; rest)
    (mret ()) l st
  = Ret () (set_environ (setenv_entries l (environ st)) st).
Proof.
  induction l as [|[k v] l IH]; intros st; cbn [foldr].
  - cbn. by rewrite set_environ_id.
  - unfold setenv_entries. cbn [foldl fst snd].
    destruct (isString v); cbn [when].
    + erewrite bind_run by reflexivity. by rewrite IH.
    + erewrite bind_run by reflexivity. by rewrite IH.
Qed.

(** Each variable ends up with the string its entry gives it; the other
    variables keep their value. *)
Lemma setenv_entries_lookup l : ∀ env name,
  NoDup l.*1 →
  setenv_entries l env !! name
  = match (list_to_map l : gmap string Json) !! name with
    | Some (JString v) => Some v
    | _ => env !! name
    end.
Proof.
  induction l as [|[k v] l IH]; intros env name Hnd; [done|].
  apply NoDup_cons in Hnd as [Hk Hnd].
  unfold setenv_entries in *. cbn [foldl fst snd]. rewrite IH by done.
  cbn [list_to_map foldr fst snd].
  destruct (decide (k = name)) as [->|Hne].
  - rewrite lookup_insert_eq.
    rewrite (not_elem_of_list_to_map_1 (M:=gmap string)) by done.
    destruct v; cbn; by rewrite ?lookup_insert_eq.
  - rewrite (lookup_insert_ne (M:=gmap string)) by done.
    destruct (isString v); [|done].
    by rewrite lookup_insert_ne.
Qed.

Lemma environment_step cfg st :
  when (isMember kEnvironmentAttr (JObject cfg)
        && isObject (member kEnvironmentAttr (JObject cfg)))
    (setenv_all (members (member kEnvironmentAttr (JObject cfg)))) st
  = Ret () (set_environ
              (match cfg !! kEnvironmentAttr with
               | Some (JObject m) => setenv_entries (map_to_list m) (environ st)
               | _ => environ st
               end) st).
Proof.
  unfold isMember, member.
  destruct (cfg !! kEnvironmentAttr) as [[]|]; cbn;
    rewrite ?set_environ_id; try done.
  unfold setenv_all. by rewrite setenv_all_run.
Qed.

Lemma agent_step cfg st :
  when (isMember kAuthAgentAppID (JObject cfg)
        && isString (member kAuthAgentAppID (JObject cfg)))
    (setenv "SSH_AUTH_SOCK" (asCString (member kAuthAgentAppID (JObject cfg))))
    st
  = Ret () (set_environ
              (match cfg !! kAuthAgentAppID with
               | Some (JString a) => <["SSH_AUTH_SOCK"%string := a]> (environ st)
               | _ => environ st
               end) st).
Proof.
  unfold isMember, member.
  destruct (cfg !! kAuthAgentAppID) as [[]|]; cbn;
    by rewrite ?set_environ_id.
Qed.

(** The state an accepted [startSession] leaves. *)
Lemma StartSession_accepted_state pc cfg st :
  openssh_thread_ st = None →
  ∃ st', StartSession pc [JObject cfg] st = Ret () st'
         ∧ session_args_ st' = JObject cfg
         ∧ openssh_thread_ st' = pc
         ∧ streams_ st' = streams_ st
         ∧ file_system_calls st'
           = file_system_calls st ++ terminal_size_calls cfg
               ++ js_socket_calls cfg
         ∧ ∀ name,
             environ st' !! name
             = match configured_variable cfg name with
               | Some v => Some v
               | None => environ st !! name
               end.
Proof.
  intros Hidle. unfold StartSession. rewrite Hidle.
  change (bool_decide (length [JObject cfg] = 1)
          && isObject (at_index [JObject cfg] 0)
          && bool_decide (None = None (A:=pthread_t))) with true.
  cbv zeta. cbn match. change (at_index [JObject cfg] 0) with (JObject cfg).
  erewrite bind_run by reflexivity.
  erewrite bind_run by apply terminal_size_step.
  erewrite bind_run by apply js_socket_step.
  erewrite bind_run by apply environment_step.
  erewrite bind_run by apply agent_step.
  match goal with
  | |- ∃ st', ?f ?s = Ret () st' ∧ _ => exists (final_state (f s))
  end.
  split; [by destruct pc|].
  split_and!.
  - by destruct pc.
  - by destruct pc.
  - by destruct pc.
  - destruct pc; cbn; by rewrite <-app_assoc.
  - intros name. unfold configured_variable.
    destruct (cfg !! kAuthAgentAppID) as [[|z0|a|b0|l0|m0]|];
      destruct (cfg !! kEnvironmentAttr) as [[|z1|s1|b1|l1|m]|];
      destruct pc; unfold SendExitCodeImpl, InvokeJS, modify;
      cbn [final_state environ set_environ set_file_system_calls
             set_session_args_ set_openssh_thread_ set_posted];
      rewrite ?lookup_insert;
      rewrite ?setenv_entries_lookup by apply NoDup_fst_map_to_list;
      rewrite ?list_to_map_to_list;
      repeat case_decide; try congruence;
      try (destruct (m !! name) as [[]|]); done.
Qed.



(** X11. An accepted [startSession] sets the terminal size exactly when
    both the width and the height are numbers (one of them alone is
    ignored), then the socket flavour when it is a boolean; it makes no
    other call on the file system, and the registry is not touched. *)
Theorem session_terminal_size_paired
    (pc : option pthread_t) (cfg : gmap string Json) (st : SshPluginInstance) :
  openssh_thread_ st = None →
  ∃ st', StartSession pc [JObject cfg] st = Ret () st'
         ∧ file_system_calls st'
           = file_system_calls st
               ++ match cfg !! kTerminalWidthAttr, cfg !! kTerminalHeightAttr with
                  | Some (JInt w), Some (JInt h) => [FsSetTerminalSize w h]
                  | _, _ => []
                  end
               ++ match cfg !! kUseJsSocketAttr with
                  | Some (JBool b) => [FsUseJsSocket b]
                  | _ => []
                  end
         ∧ streams_ st' = streams_ st.
Proof.
  intros Hidle.
  destruct (StartSession_accepted_state pc cfg st Hidle)
    as (st' & Hrun & _ & _ & Hstreams & Hfs & _).
  by exists st'.
Qed.

Lemma session_terminal_size_paired_witness :
  ∃ st', StartSession (Some 5%positive)
           [JObject (delete kTerminalHeightAttr environment_config)]
           (new_instance ∅) = Ret () st'
         ∧ file_system_calls st' = [FsUseJsSocket true]
         ∧ streams_ st' = ∅.
Proof.
  destruct (session_terminal_size_paired (Some 5%positive)
              (delete kTerminalHeightAttr environment_config) (new_instance ∅)
              eq_refl) as (st' & Hrun & Hfs & Hstreams).
  exists st'. split; [exact Hrun|]. clear Hrun.
  rewrite Hfs, Hstreams. clear Hfs Hstreams. vm_compute. repeat split.
Defined.




End session_setup.

(** ** Sessions one after the other, and queued diagnostics *)

Section session_sequence.
Import Value Plugin Run.

#[local] Existing Instance hushed_preorder.
#[local] Existing Instance calm_preorder.

(** What a session that returns leaves behind: an idle instance, no exit
    report waiting, and one [exit] envelope among the new messages. *)
Lemma session_report DEBUG pc cfg evs rc st st' :
  openssh_thread_ st = None →
  no_exit_pending st →
  session DEBUG pc [JObject cfg] evs rc st = Ret () st' →
  openssh_thread_ st' = None
  ∧ no_exit_pending st'
  ∧ ∃ new, posted st' = posted st ++ new
           ∧ exit_envelopes new = [exit_envelope (reported_code pc rc)].
Proof.
  intros Hidle Hq Hsession.
  destruct (StartSession_accepted pc cfg st Hidle)
    as (st2 & Hrun & st1 & (Ht & Hq1 & new & Hnew & Hex) & Hend).
  unfold session in Hsession.
  apply bind_Ret in Hsession as ([] & st2' & Hrun' & Hbody).
  rewrite Hrun in Hrun'. injection Hrun' as <-.
  assert (accepted [JObject cfg] st = true) as Hacc
    by (unfold accepted; by rewrite Hidle).
  rewrite Hacc in Hbody. cbn [andb] in Hbody.
  destruct pc as [tid|]; unfold thread_started in Hend; subst st2.
  - change (bool_decide (is_Some (Some tid))) with true in Hbody.
    cbn [when] in Hbody.
    apply bind_Ret in Hbody as ([] & st6 & Hthread & Hqueue).
    unfold SessionThreadImpl in Hthread.
    apply bind_Ret in Hthread as ([] & st3 & Hfs & Hthread).
    apply bind_Ret in Hthread as (inv & st4 & Hargv & Hthread).
    apply bind_Ret in Hthread as (rc' & st5 & Hmain & Hexit).
    unfold ssh_main_run in Hmain.
    apply bind_Ret in Hmain as ([] & st5' & Hevs & Hret).
    injection Hret as <- <-. injection Hfs as <-.
    set (st3 := set_file_system_calls _ _) in *.
    assert (calm st3 st5') as Hcalm.
    { etrans.
      - pose proof (calm_SessionThread_argv DEBUG st3) as H.
        rewrite Hargv in H. exact H.
      - pose proof (calm_run_events evs st4) as H.
        rewrite Hevs in H. exact H. }
    destruct Hcalm as [Ht5 H5]; [done|].
    destruct H5 as (Hq5 & new5 & Hnew5 & Hex5).
    { unfold no_exit_pending. cbn. by rewrite Hq1. }
    injection Hexit as <-.
    rewrite run_main_thread_queue_spec in Hqueue. injection Hqueue as <-.
    split_and!; [done|by constructor|].
    exists (new ++ new5
              ++ (envelope_of_call <$> main_thread_queue st5')
              ++ [exit_envelope rc]).
    split.
    + cbn. rewrite Hnew5. cbn. rewrite Hnew, fmap_app, <-!app_assoc. done.
    + rewrite !exit_envelopes_app, Hex, Hex5, exit_envelopes_calls by done.
      done.
  - change (bool_decide (is_Some None)) with false in Hbody.
    cbn [when] in Hbody. injection Hbody as <-.
    split_and!.
    + cbn. congruence.
    + unfold no_exit_pending. cbn. by rewrite Hq1.
    + exists (new ++ [exit_envelope (-1)]). cbn [posted set_posted].
      rewrite Hnew, <-app_assoc. split; [done|].
      by rewrite exit_envelopes_app, Hex.
Qed.

(** X12. After a session that returned, the instance accepts the next
    [startSession]: two sessions run one after the other from an idle
    instance leave it idle and produce exactly two [exit] envelopes, the
    first session's before the second's. *)
Theorem sessions_in_sequence
    (DEBUG : bool) (pc1 pc2 : option pthread_t) (cfg1 cfg2 : gmap string Json)
    (evs1 evs2 : list event) (rc1 rc2 : Z) (st st1 st2 : SshPluginInstance) :
  openssh_thread_ st = None →
  no_exit_pending st →
  session DEBUG pc1 [JObject cfg1] evs1 rc1 st = Ret () st1 →
  session DEBUG pc2 [JObject cfg2] evs2 rc2 st1 = Ret () st2 →
  openssh_thread_ st2 = None
  ∧ ∃ new, posted st2 = posted st ++ new
           ∧ exit_envelopes new
             = [exit_envelope (reported_code pc1 rc1);
                exit_envelope (reported_code pc2 rc2)].
Proof.
  intros Hidle Hq Hs1 Hs2.
  destruct (session_report _ _ _ _ _ _ _ Hidle Hq Hs1)
    as (Hidle1 & Hq1 & new1 & Hp1 & He1).
  destruct (session_report _ _ _ _ _ _ _ Hidle1 Hq1 Hs2)
    as (Hidle2 & _ & new2 & Hp2 & He2).
  split; [done|]. exists (new1 ++ new2).
  rewrite Hp2, Hp1, <-app_assoc. split; [done|].
  by rewrite exit_envelopes_app, He1, He2.
Qed.

Lemma sessions_in_sequence_witness :
  let st1 := final_state
               (session false (Some 5%positive) [JObject example_config]
                  example_events 255 (new_instance ∅)) in
  let st2 := final_state
               (session false None [JObject username_only_config] [] 0 st1) in
  openssh_thread_ st2 = None
  ∧ ∃ new, posted st2 = posted (new_instance ∅) ++ new
           ∧ exit_envelopes new = [exit_envelope 255; exit_envelope (-1)].
Proof.
  intros st1 st2.
  apply (sessions_in_sequence false (Some 5%positive) None example_config
           username_only_config example_events [] 255 0 (new_instance ∅)
           st1 st2).
  - reflexivity.
  - constructor.
  - by vm_compute.
  - by vm_compute.
Defined.

Lemma run_events_app evs1 evs2 st :
  run_events (evs1 ++ evs2) st = (run_events evs1;; run_events evs2) st.
Proof.
  revert st. induction evs1 as [|e evs1 IH]; intros st; [done|].
  cbn [app run_events]. unfold mbind, M_bind in *.
  destruct (run_event e st); [apply IH|done].
Qed.

Lemma queue_logs msgs : ∀ st,
  run_events (NativePrintLog <$> msgs) st
  = Ret () (set_main_thread_queue
              (main_thread_queue st ++ (CallPrintLogImpl <$> msgs)) st).
Proof.
  induction msgs as [|m msgs IH]; intros st.
  - cbn. by rewrite set_main_thread_queue_nil.
  - cbn [fmap list_fmap run_events run_event].
    erewrite bind_run by reflexivity.
    by rewrite IH, set_main_thread_queue_app.
Qed.

(** X13. Diagnostics printed from the session thread are not posted by
    [PrintLog] itself: they wait for the main thread, which then posts
    them after what was already waiting, in the order they were printed,
    and leaves nothing waiting. *)
Theorem queued_logs_posted_in_order
    (msgs : list string) (st : SshPluginInstance) :
  (∃ st', run_events (NativePrintLog <$> msgs) st = Ret () st'
          ∧ posted st' = posted st) ∧
  (∃ st', run_events ((NativePrintLog <$> msgs) ++ [MainThreadRuns]) st
          = Ret () st'
          ∧ posted st'
            = posted st
              ++ (envelope_of_call <$> main_thread_queue st)
              ++ ((λ m, Build_Envelope kPrintLogMethodId [JString m]) <$> msgs)
          ∧ main_thread_queue st' = []).
Proof.
  split.
  - eexists. split; [apply queue_logs|done].
  - eexists. split.
    + rewrite run_events_app. erewrite bind_run by apply queue_logs.
      cbn [run_events run_event]. erewrite bind_run
        by apply run_main_thread_queue_spec.
      reflexivity.
    + split; [|done]. cbn. rewrite fmap_app, <-list_fmap_compose. done.
Qed.

End session_sequence.

(** ** Messages that are dropped *)

Section dropped_messages.
Import Value Plugin Host.

(** A name outside the nine is ignored. *)
Lemma Invoke_unknown_name pc function args st :
  function ∉ handler_names → Invoke pc function args st = Ret () st.
Proof.
  intros Hf. unfold Invoke.
  repeat case_decide; try done; exfalso; apply Hf; unfold handler_names;
    repeat match goal with H : _ ∨ _ |- _ => destruct H end; subst;
    set_solver.
Qed.

(** X1. A message changes the state only if it is a string that parses to
    an object whose [name] is one of the nine handler names and whose
    [arguments] are an array, and it is then given to that handler.  Any
    other message (not a string, not parsable, not an object, without a
    name, with an unknown name, or without an array of arguments) leaves
    the instance exactly as it was. *)
Theorem HandleMessage_dispatches_or_drops
    (parse : string → option Json) (pc : option pthread_t)
    (message_data : Var) (st : SshPluginInstance) :
  final_state (HandleMessage parse pc message_data st) ≠ st →
  ∃ text m function args,
    message_data = VarString text
    ∧ parse text = Some (JObject m)
    ∧ asString (default JNull (m !! kMessageNameAttr)) = Some function
    ∧ function ∈ handler_names
    ∧ m !! kMessageArgumentsAttr = Some (JArray args)
    ∧ HandleMessage parse pc message_data st = Invoke pc function args st.
Proof.
  intros Hchange. unfold HandleMessage in *.
  destruct message_data as [text|]; [|done].
  destruct (parse text) as [[| | | | |m]|] eqn:Hparse; try done.
  cbn [isObject member] in *.
  unfold mbind, M_bind, convert in *.
  destruct (asString (default JNull (m !! kMessageNameAttr)))
    as [function|] eqn:Hname; [|done].
  destruct (bool_decide (function = EmptyString)); [done|].
  cbn [negb andb] in *.
  destruct (m !! kMessageArgumentsAttr) as [[| | | |args|]|] eqn:Hargs;
    try done.
  cbn [from_option id isArray elements] in *.
  destruct (decide (function ∈ handler_names)) as [Hin|Hout].
  - by exists text, m, function, args.
  - by rewrite Invoke_unknown_name in Hchange.
Qed.

Lemma HandleMessage_dispatches_or_drops_witness :
  ∃ text m function args,
    VarString "resize" = VarString text
    ∧ example_parse text = Some (JObject m)
    ∧ asString (default JNull (m !! kMessageNameAttr)) = Some function
    ∧ function ∈ handler_names
    ∧ m !! kMessageArgumentsAttr = Some (JArray args)
    ∧ HandleMessage example_parse None (VarString "resize") (new_instance ∅)
      = Invoke None function args (new_instance ∅).
Proof.
  apply (HandleMessage_dispatches_or_drops example_parse None
           (VarString "resize") (new_instance ∅)).
  vm_compute. discriminate.
Defined.

Ltac run :=
  unfold mbind, mret, M_bind, M_ret, modify, when, assert_, convert,
    find_stream, erase_stream, call_stream, call_file_system,
    PrintLogImpl, InvokeJS in *;
  cbn -[line] in *.











End dropped_messages.
